(** * Instanced draw-batch aggregator ([InstancedBuffer])

    A shallow embedding of the instanced-buffer aggregator of the render
    pipeline (class [InstancedBuffer] with its [merge], [uploadBuffers],
    [clear] and [destroy] methods) and the properties of its batching
    algorithm: byte placement, capacity growth, first-fit compatibility
    matching and the frame life cycle. *)

From Stdlib Require Import ZArith Bool Lia String.
From stdpp Require Import base tactics option numbers list gmap.

Local Open Scope Z_scope.

(** ** JavaScript values used by the aggregator *)

(** Object references as [===] and [!==] see them: the two absent values
    and objects, which are equal exactly when they are the same object. *)
Inductive JSRef : Type :=
  | JSUndefined
  | JSNull
  | JSObject (id : N).

#[global] Instance JSRef_eq_dec : EqDecision JSRef.
Proof. solve_decision. Defined.

(** [a !== b] on references. *)
Definition ref_neq (a b : JSRef) : bool := negb (bool_decide (a = b)).

(** [a !== b] on integral numbers (handles, strides, counts). *)
Definition num_neq (a b : Z) : bool := negb (a =? b).

(** Exceptions a typed array can raise. *)
Inductive JSError : Type :=
  | RangeError.

(** The outcome of a method call: it returns, or it throws (the state an
    exception leaves behind is not kept). *)
Inductive Completion (A : Type) : Type :=
  | Normal (a : A)
  | Throw (e : JSError).
Arguments Normal {A} a.
Arguments Throw {A} e.

#[global] Instance Completion_ret : MRet Completion := fun A a => Normal a.

#[global] Instance Completion_bind : MBind Completion := fun A B k c =>
  match c with
  | Normal a => k a
  | Throw e => Throw e
  end.

#[global] Instance Completion_fmap : FMap Completion := fun A B f c =>
  match c with
  | Normal a => Normal (f a)
  | Throw e => Throw e
  end.

(** [ToInt32] on an integral number, and the bit operators built on it. *)
Definition ToInt32 (z : Z) : Z := (z + 2 ^ 31) mod 2 ^ 32 - 2 ^ 31.

(** [a << b] *)
Definition js_shl (a b : Z) : Z := ToInt32 (Z.shiftl (ToInt32 a) (b mod 32)).

(** [a | b] *)
Definition js_or (a b : Z) : Z := Z.lor (ToInt32 a) (ToInt32 b).

(** *** [Uint8Array] *)

Definition Uint8Array : Type := list Byte.byte.

(** [new Uint8Array(n)]: [n] zero bytes; a negative length is a
    [RangeError]. *)
Definition new_Uint8Array (n : Z) : Completion Uint8Array :=
  if n <? 0 then Throw RangeError
  else Normal (replicate (Z.to_nat n) Byte.x00).

(** [target.set(source, offset)]: overwrite [target] from [offset] on with
    the bytes of [source]; a [RangeError] when they do not fit. *)
Definition Uint8Array_set (target source : Uint8Array) (offset : Z)
  : Completion Uint8Array :=
  if (offset <? 0) || (Z.of_nat (length target) <? offset + Z.of_nat (length source))
  then Throw RangeError
  else Normal (take (Z.to_nat offset) target ++ source
               ++ drop (Z.to_nat offset + length source)%nat target).

(** [data.subarray(i*stride, (i+1)*stride)]: the [i]-th instance slot. *)
Definition slot (data : Uint8Array) (stride : Z) (i : nat) : Uint8Array :=
  take (Z.to_nat stride) (drop (i * Z.to_nat stride)%nat data).

(** ** The graphics layer *)

Record GFXAttribute : Type := {
  name : string;
  format : Z;
  isNormalized : bool;
  stream : Z;
  isInstanced : bool;
}.

Record GFXBufferInfo : Type := {
  info_usage : Z;
  info_memUsage : Z;
  info_size : Z;
  info_stride : Z;
}.

(** A GPU buffer: an object ([buffer_id] is its identity) and its current
    size. *)
Record GFXBuffer : Type := {
  buffer_id : N;
  buffer_info : GFXBufferInfo;
  buffer_size : Z;
}.

Record GFXInputAssemblerInfo : Type := {
  info_attributes : list GFXAttribute;
  info_vertexBuffers : list N;
  info_indexBuffer : JSRef;
}.

(** An input assembler; vertex buffers are held by identity. *)
Record GFXInputAssembler : Type := {
  assembler_id : N;
  attributes : list GFXAttribute;
  vertexBuffers : list N;
  indexBuffer : JSRef;
  instanceCount : Z;
}.

(** The calls the aggregator makes on the graphics device, in order. *)
Inductive GFXCall : Type :=
  | CreateBuffer (id : N) (info : GFXBufferInfo)
  | ResizeBuffer (id : N) (size : Z)
  | DestroyBuffer (id : N)
  | CreateInputAssembler (id : N) (info : GFXInputAssemblerInfo)
  | DestroyInputAssembler (id : N).

(** Modelled from the spec: the graphics device (class [GFXDevice] and the
    [resize] and [destroy] methods of its objects are not part of the
    excerpt). The device hands out objects with fresh identities and the
    model keeps the trace of the calls it received. *)
Record GFXDevice : Type := {
  nextObject : N;
  calls : list GFXCall;
}.

(** Modelled from the spec: [device.createBuffer(info)], a buffer of
    [info.size] bytes with a fresh identity. *)
Definition createBuffer (device : GFXDevice) (info : GFXBufferInfo)
  : GFXBuffer * GFXDevice :=
  ({| buffer_id := nextObject device; buffer_info := info;
      buffer_size := info_size info |},
   {| nextObject := N.succ (nextObject device);
      calls := calls device ++ [CreateBuffer (nextObject device) info] |}).

(** Modelled from the spec: [buffer.resize(size)], same object, new size. *)
Definition GFXBuffer_resize (device : GFXDevice) (b : GFXBuffer) (size : Z)
  : GFXBuffer * GFXDevice :=
  ({| buffer_id := buffer_id b; buffer_info := buffer_info b;
      buffer_size := size |},
   {| nextObject := nextObject device;
      calls := calls device ++ [ResizeBuffer (buffer_id b) size] |}).

(** Modelled from the spec: [buffer.destroy()] releases the buffer. *)
Definition GFXBuffer_destroy (device : GFXDevice) (b : GFXBuffer) : GFXDevice :=
  {| nextObject := nextObject device;
     calls := calls device ++ [DestroyBuffer (buffer_id b)] |}.

(** Modelled from the spec: [device.createInputAssembler(info)], a binding
    of the given attributes, vertex buffers and index buffer, with a fresh
    identity and no instance drawn yet. *)
Definition createInputAssembler (device : GFXDevice) (info : GFXInputAssemblerInfo)
  : GFXInputAssembler * GFXDevice :=
  ({| assembler_id := nextObject device;
      attributes := info_attributes info;
      vertexBuffers := info_vertexBuffers info;
      indexBuffer := info_indexBuffer info;
      instanceCount := 0 |},
   {| nextObject := N.succ (nextObject device);
      calls := calls device ++ [CreateInputAssembler (nextObject device) info] |}).

(** Modelled from the spec: [inputAssembler.destroy()] releases the
    binding. *)
Definition GFXInputAssembler_destroy (device : GFXDevice) (a : GFXInputAssembler)
  : GFXDevice :=
  {| nextObject := nextObject device;
     calls := calls device ++ [DestroyInputAssembler (assembler_id a)] |}.

(** Modelled from the spec: a command recorder; [updateBuffer(buffer, bytes)]
    records one transfer of [bytes] to [buffer]. *)
Definition GFXCommandBuffer : Type := list (N * Uint8Array).

Definition updateBuffer (cmdBuff : GFXCommandBuffer) (b : GFXBuffer)
    (bytes : Uint8Array) : GFXCommandBuffer :=
  cmdBuff ++ [(buffer_id b, bytes)].

(** ** Submissions *)

Record GFXDescriptorSet : Type := {
  getTexture : Z -> JSRef;
}.

Record SubModel : Type := {
  inputAssembler : GFXInputAssembler;
  descriptorSet : GFXDescriptorSet;
  handle : Z;
}.

Record IInstancedAttributeBlock : Type := {
  buffer : Uint8Array;
  block_attributes : list GFXAttribute;
}.

Record Pass : Type := {
  pass_device : GFXDevice;
  pass_handle : Z;
}.

(** What the module imports and the excerpt does not define: the lightmap
    binding slot, the [SubModelView] and buffer-usage enumerators, and the
    contents of the sub-model memory pool ([SubModelPool.get]). *)
Record Imports : Type := {
  UNIFORM_LIGHTMAP_TEXTURE_BINDING : Z;
  SHADER_0 : Z;
  DESCRIPTOR_SET : Z;
  VERTEX : Z;
  TRANSFER_DST : Z;
  HOST : Z;
  DEVICE : Z;
  SubModelPool_get : Z -> Z -> Z;
}.

(** ** Instance groups and the aggregator *)

(** A group. Its vertex buffer and input assembler are created by [merge]
    for this group alone, so the group holds them by value; the index
    buffer and the lightmap are shared with the submissions and are held
    by reference. *)
Record IInstancedItem : Type := {
  count : Z;
  capacity : Z;
  vb : GFXBuffer;
  data : Uint8Array;
  ia : GFXInputAssembler;
  stride : Z;
  hShader : Z;
  hDescriptorSet : Z;
  lightingMap : JSRef;
}.

Definition INITIAL_CAPACITY : Z := 32.
Definition MAX_CAPACITY : Z := 1024.

(** The aggregator. [_device] is the device of its pass, in the state the
    calls of this aggregator have left it in. The static registry
    ([InstancedBuffer.get]) is not part of this development. *)
Record InstancedBuffer : Type := {
  instances : list IInstancedItem;
  hPass : Z;
  hasPendingModels : bool;
  dynamicOffsets : list Z;
  _device : GFXDevice;
}.

(** [new InstancedBuffer(pass)] *)
Definition new_InstancedBuffer (pass : Pass) : InstancedBuffer :=
  {| instances := [];
     hPass := pass_handle pass;
     hasPendingModels := false;
     dynamicOffsets := [];
     _device := pass_device pass |}.

(** One round of the loop of [destroy]. *)
Definition destroy_instance (device : GFXDevice) (instance : IInstancedItem)
  : GFXDevice :=
  GFXInputAssembler_destroy (GFXBuffer_destroy device (vb instance)) (ia instance).

Definition destroy (this : InstancedBuffer) : InstancedBuffer :=
  {| instances := [];
     hPass := hPass this;
     hasPendingModels := hasPendingModels this;
     dynamicOffsets := dynamicOffsets this;
     _device := foldl destroy_instance (_device this) (instances this) |}.

Section Merge.

Variable env : Imports.

(** The resize branch of [merge]: double the capacity, move the bytes to
    a new array of the new size, resize the vertex buffer. *)
Definition grow (device : GFXDevice) (instance : IInstancedItem)
  : Completion (IInstancedItem * GFXDevice) :=
  let capacity' := js_shl (capacity instance) 1 in
  let newSize := stride instance * capacity' in
  let oldData := data instance in
  fresh ← new_Uint8Array newSize;
  data' ← Uint8Array_set fresh oldData 0;
  let '(vb', device') := GFXBuffer_resize device (vb instance) newSize in
  mret ({| count := count instance; capacity := capacity'; vb := vb';
           data := data'; ia := ia instance; stride := stride instance;
           hShader := hShader instance;
           hDescriptorSet := hDescriptorSet instance;
           lightingMap := lightingMap instance |}, device').

(** The end of the body of the loop of [merge]: take over the handles
    of the submission and write its payload into the next free slot. *)
Definition put (instance : IInstancedItem) (attrs : IInstancedAttributeBlock)
    (hShader' hDescriptorSet' : Z) : Completion IInstancedItem :=
  let hShader1 :=
    if num_neq (hShader instance) hShader' then hShader'
    else hShader instance in
  let hDescriptorSet1 :=
    if num_neq (hDescriptorSet instance) hDescriptorSet' then hDescriptorSet'
    else hDescriptorSet instance in
  data' ← Uint8Array_set (data instance) (buffer attrs)
            (stride instance * count instance);
  mret {| count := count instance + 1; capacity := capacity instance;
          vb := vb instance; data := data'; ia := ia instance;
          stride := stride instance; hShader := hShader1;
          hDescriptorSet := hDescriptorSet1;
          lightingMap := lightingMap instance |}.

(** The body of the loop of [merge] once a group passed the three
    compatibility tests: grow when full, then [put]. *)
Definition append (device : GFXDevice) (instance : IInstancedItem)
    (attrs : IInstancedAttributeBlock) (hShader' hDescriptorSet' : Z)
  : Completion (IInstancedItem * GFXDevice) :=
  '(instance1, device1) ←
     (if capacity instance <=? count instance then grow device instance
      else mret (instance, device));
  instance2 ← put instance1 attrs hShader' hDescriptorSet';
  mret (instance2, device1).

(** The loop of [merge] over [this.instances], from index [i] on
    ([pending] are the groups not visited yet). [Some] is a [return]
    from inside the loop, [None] the end of the loop. *)
Fixpoint merge_loop (this : InstancedBuffer) (i : nat)
    (pending : list IInstancedItem) (sourceIA : GFXInputAssembler)
    (lightingMap' : JSRef) (stride' : Z) (hShader' hDescriptorSet' : Z)
    (attrs : IInstancedAttributeBlock)
  : Completion (option InstancedBuffer) :=
  match pending with
  | [] => mret None
  | instance :: pending' =>
      if ref_neq (indexBuffer (ia instance)) (indexBuffer sourceIA)
         || (MAX_CAPACITY <=? count instance)
      then merge_loop this (S i) pending' sourceIA lightingMap' stride'
             hShader' hDescriptorSet' attrs
      else if ref_neq (lightingMap instance) lightingMap'
      then merge_loop this (S i) pending' sourceIA lightingMap' stride'
             hShader' hDescriptorSet' attrs
      else if num_neq (stride instance) stride'
      then mret (Some this)
      else
        '(instance', device') ←
           append (_device this) instance attrs hShader' hDescriptorSet';
        mret (Some {| instances := <[i := instance']> (instances this);
                      hPass := hPass this;
                      hasPendingModels := true;
                      dynamicOffsets := dynamicOffsets this;
                      _device := device' |})
  end.

(** The end of [merge]: create a new group for the submission. *)
Definition create (this : InstancedBuffer) (sourceIA : GFXInputAssembler)
    (lightingMap' : JSRef) (stride' : Z) (hShader' hDescriptorSet' : Z)
    (attrs : IInstancedAttributeBlock) : Completion InstancedBuffer :=
  let '(vb', device1) :=
    createBuffer (_device this)
      {| info_usage := js_or (VERTEX env) (TRANSFER_DST env);
         info_memUsage := js_or (HOST env) (DEVICE env);
         info_size := stride' * INITIAL_CAPACITY;
         info_stride := stride' |} in
  data0 ← new_Uint8Array (stride' * INITIAL_CAPACITY);
  let vertexBuffers0 := vertexBuffers sourceIA in
  let attributes0 := attributes sourceIA in
  let indexBuffer' := indexBuffer sourceIA in
  let attributes' :=
    foldl (fun acc attr =>
             acc ++ [{| name := name attr; format := format attr;
                        isNormalized := isNormalized attr;
                        stream := Z.of_nat (length vertexBuffers0);
                        isInstanced := true |}])
      attributes0 (block_attributes attrs) in
  data' ← Uint8Array_set data0 (buffer attrs) 0;
  let vertexBuffers' := vertexBuffers0 ++ [buffer_id vb'] in
  let iaInfo := {| info_attributes := attributes';
                   info_vertexBuffers := vertexBuffers';
                   info_indexBuffer := indexBuffer' |} in
  let '(ia', device2) := createInputAssembler device1 iaInfo in
  mret {| instances :=
            instances this ++
              [{| count := 1; capacity := INITIAL_CAPACITY; vb := vb';
                  data := data'; ia := ia'; stride := stride';
                  hShader := hShader'; hDescriptorSet := hDescriptorSet';
                  lightingMap := lightingMap' |}];
          hPass := hPass this;
          hasPendingModels := true;
          dynamicOffsets := dynamicOffsets this;
          _device := device2 |}.

Definition merge (this : InstancedBuffer) (subModel : SubModel)
    (attrs : IInstancedAttributeBlock) (passIdx : Z)
    (hShaderImplant : option Z) : Completion InstancedBuffer :=
  let stride' := Z.of_nat (length (buffer attrs)) in
  if stride' =? 0 then mret this
  else
    let sourceIA := inputAssembler subModel in
    let lightingMap' :=
      getTexture (descriptorSet subModel) (UNIFORM_LIGHTMAP_TEXTURE_BINDING env) in
    let hShader' := SubModelPool_get env (handle subModel) (SHADER_0 env + passIdx) in
    let hDescriptorSet' := SubModelPool_get env (handle subModel) (DESCRIPTOR_SET env) in
    returned ← merge_loop this 0 (instances this) sourceIA lightingMap'
                 stride' hShader' hDescriptorSet' attrs;
    match returned with
    | Some this' => mret this'
    | None => create this sourceIA lightingMap' stride' hShader' hDescriptorSet' attrs
    end.

End Merge.

(** [inputAssembler.instanceCount = n] *)
Definition set_instanceCount (a : GFXInputAssembler) (n : Z) : GFXInputAssembler :=
  {| assembler_id := assembler_id a; attributes := attributes a;
     vertexBuffers := vertexBuffers a; indexBuffer := indexBuffer a;
     instanceCount := n |}.

(** The group after [instance.ia.instanceCount = instance.count]. *)
Definition bound (instance : IInstancedItem) : IInstancedItem :=
  {| count := count instance; capacity := capacity instance;
     vb := vb instance; data := data instance;
     ia := set_instanceCount (ia instance) (count instance);
     stride := stride instance; hShader := hShader instance;
     hDescriptorSet := hDescriptorSet instance;
     lightingMap := lightingMap instance |}.

(** One round of the loop of [uploadBuffers]: the groups visited so far
    and the command recorder. *)
Definition upload_instance (acc : list IInstancedItem * GFXCommandBuffer)
    (instance : IInstancedItem) : list IInstancedItem * GFXCommandBuffer :=
  if count instance =? 0 then (acc.1 ++ [instance], acc.2)
  else
    let instance' := bound instance in
    (acc.1 ++ [instance'], updateBuffer acc.2 (vb instance') (data instance')).

Definition uploadBuffers (this : InstancedBuffer) (cmdBuff : GFXCommandBuffer)
  : InstancedBuffer * GFXCommandBuffer :=
  let '(instances', cmdBuff') :=
    foldl upload_instance ([], cmdBuff) (instances this) in
  ({| instances := instances';
      hPass := hPass this;
      hasPendingModels := hasPendingModels this;
      dynamicOffsets := dynamicOffsets this;
      _device := _device this |}, cmdBuff').

(** One round of the loop of [clear]. *)
Definition clear_instance (instance : IInstancedItem) : IInstancedItem :=
  {| count := 0; capacity := capacity instance; vb := vb instance;
     data := data instance; ia := ia instance; stride := stride instance;
     hShader := hShader instance; hDescriptorSet := hDescriptorSet instance;
     lightingMap := lightingMap instance |}.

Definition clear (this : InstancedBuffer) : InstancedBuffer :=
  {| instances := map clear_instance (instances this);
     hPass := hPass this;
     hasPendingModels := false;
     dynamicOffsets := dynamicOffsets this;
     _device := _device this |}.

(** ** The registry of the aggregators *)

(** The static registry. [_buffers] maps a pass (an object, by identity)
    to a record that maps an extra key to an aggregator (an object, by
    reference); [heap] holds the aggregator objects. *)
Record Registry : Type := {
  _buffers : gmap N (gmap Z N);
  heap : gmap N InstancedBuffer;
}.

(** [InstancedBuffer.get(pass, extraKey)]: [passRef] is the identity of
    the object [pass]; the result is the reference of the aggregator. *)
Definition get (registry : Registry) (passRef : N) (pass : Pass) (extraKey : Z)
  : N * Registry :=
  let buffers :=
    match _buffers registry !! passRef with
    | Some _ => _buffers registry
    | None => <[passRef := ∅]> (_buffers registry)
    end in
  let record := default ∅ (buffers !! passRef) in
  match record !! extraKey with
  | Some this => (this, {| _buffers := buffers; heap := heap registry |})
  | None =>
      let this := fresh (dom (heap registry)) in
      (this,
       {| _buffers := <[passRef := <[extraKey := this]> record]> buffers;
          heap := <[this := new_InstancedBuffer pass]> (heap registry) |})
  end.

(** ** Sequences of calls *)

(** A call of one of the four methods of an aggregator. *)
Inductive Op : Type :=
  | OpMerge (subModel : SubModel) (attrs : IInstancedAttributeBlock)
            (passIdx : Z) (hShaderImplant : option Z)
  | OpUploadBuffers
  | OpClear
  | OpDestroy.

(** A frame state: the aggregator and the command recorder handed to
    [uploadBuffers]. *)
Definition exec (env : Imports) (s : InstancedBuffer * GFXCommandBuffer) (op : Op)
  : Completion (InstancedBuffer * GFXCommandBuffer) :=
  match op with
  | OpMerge subModel attrs passIdx hShaderImplant =>
      this' ← merge env s.1 subModel attrs passIdx hShaderImplant;
      mret (this', s.2)
  | OpUploadBuffers => mret (uploadBuffers s.1 s.2)
  | OpClear => mret (clear s.1, s.2)
  | OpDestroy => mret (destroy s.1, s.2)
  end.

Fixpoint run (env : Imports) (s : InstancedBuffer * GFXCommandBuffer)
    (ops : list Op) : Completion (InstancedBuffer * GFXCommandBuffer) :=
  match ops with
  | [] => mret s
  | op :: ops' => s' ← exec env s op; run env s' ops'
  end.

(** ** Vocabulary of the properties *)

(** What a submission is matched on, and the handles it resolves to. *)
Definition sub_indexBuffer (subModel : SubModel) : JSRef :=
  indexBuffer (inputAssembler subModel).

Definition sub_lightingMap (env : Imports) (subModel : SubModel) : JSRef :=
  getTexture (descriptorSet subModel) (UNIFORM_LIGHTMAP_TEXTURE_BINDING env).

Definition sub_stride (attrs : IInstancedAttributeBlock) : Z :=
  Z.of_nat (length (buffer attrs)).

Definition sub_hShader (env : Imports) (subModel : SubModel) (passIdx : Z) : Z :=
  SubModelPool_get env (handle subModel) (SHADER_0 env + passIdx).

Definition sub_hDescriptorSet (env : Imports) (subModel : SubModel) : Z :=
  SubModelPool_get env (handle subModel) (DESCRIPTOR_SET env).

(** A group a submission with index buffer [ib] and texture [tex] is not
    moved past: same index buffer, room below the hard cap, same texture. *)
Definition fits (ib tex : JSRef) (g : IInstancedItem) : Prop :=
  indexBuffer (ia g) = ib ∧ count g < MAX_CAPACITY ∧ lightingMap g = tex.

#[global] Instance fits_dec ib tex g : Decision (fits ib tex g).
Proof. unfold fits. apply _. Defined.

(** The first such group in creation order, with its index. *)
Definition first_fit (ib tex : JSRef) (l : list IInstancedItem)
  : option (nat * IInstancedItem) :=
  list_find (fits ib tex) l.

(** The index of the group a submission is appended to, if any: the first
    fitting group when the strides agree, a new group at the end of the
    list when no group fits. *)
Definition lands (env : Imports) (this : InstancedBuffer) (subModel : SubModel)
    (attrs : IInstancedAttributeBlock) : option nat :=
  if sub_stride attrs =? 0 then None
  else
    match first_fit (sub_indexBuffer subModel) (sub_lightingMap env subModel)
            (instances this) with
    | Some (j, g) => if stride g =? sub_stride attrs then Some j else None
    | None => Some (length (instances this))
    end.

(** [c] is [32 * 2^k] for some [k]. *)
Definition pow2_multiple (c : Z) : Prop :=
  ∃ k : nat, c = INITIAL_CAPACITY * 2 ^ Z.of_nat k.

(** The invariant of a group. *)
Record item_inv (g : IInstancedItem) : Prop := {
  inv_count_nonneg : 0 ≤ count g;
  inv_count_capacity : count g ≤ capacity g;
  inv_capacity_pow2 : pow2_multiple (capacity g);
  inv_capacity_max : capacity g ≤ MAX_CAPACITY;
  inv_data_length : Z.of_nat (length (data g)) = stride g * capacity g;
}.

Definition inv (this : InstancedBuffer) : Prop :=
  Forall item_inv (instances this).

(** The groups present before a call keep their stride. *)
Definition strides_kept (this this' : InstancedBuffer) : Prop :=
  ∀ i g g', instances this !! i = Some g → instances this' !! i = Some g' →
            stride g' = stride g.

(** What a group is matched on. *)
Definition group_key (g : IInstancedItem) : JSRef * JSRef * Z :=
  (indexBuffer (ia g), lightingMap g, stride g).

Definition sub_key (env : Imports) (subModel : SubModel)
    (attrs : IInstancedAttributeBlock) : JSRef * JSRef * Z :=
  (sub_indexBuffer subModel, sub_lightingMap env subModel, sub_stride attrs).

(** *** The outcomes of a merge *)

(** [g'] is [g] after a payload with handles [h] and [d] was appended. *)
Record appended (g : IInstancedItem) (payload : Uint8Array) (h d : Z)
    (g' : IInstancedItem) : Prop := {
  app_count : count g' = count g + 1;
  app_stride : stride g' = stride g;
  app_capacity :
    capacity g' = if capacity g <=? count g then 2 * capacity g else capacity g;
  app_ia : ia g' = ia g;
  app_lightingMap : lightingMap g' = lightingMap g;
  app_vb : buffer_id (vb g') = buffer_id (vb g);
  app_hShader : hShader g' = h;
  app_hDescriptorSet : hDescriptorSet g' = d;
  app_old :
    take (Z.to_nat (count g) * Z.to_nat (stride g)) (data g')
    = take (Z.to_nat (count g) * Z.to_nat (stride g)) (data g);
  app_new : slot (data g') (stride g) (Z.to_nat (count g)) = payload;
  app_inv : item_inv g';
}.

(** [g'] is the group created for a submission. *)
Record created (device : GFXDevice) (sourceIA : GFXInputAssembler)
    (tex : JSRef) (payload : Uint8Array) (h d : Z) (g' : IInstancedItem)
  : Prop := {
  new_count : count g' = 1;
  new_capacity : capacity g' = INITIAL_CAPACITY;
  new_stride : stride g' = Z.of_nat (length payload);
  new_indexBuffer : indexBuffer (ia g') = indexBuffer sourceIA;
  new_lightingMap : lightingMap g' = tex;
  new_vb : buffer_id (vb g') = nextObject device;
  new_hShader : hShader g' = h;
  new_hDescriptorSet : hDescriptorSet g' = d;
  new_data :
    data g' = payload ++ replicate (31 * length payload) Byte.x00;
  new_inv : item_inv g';
}.

(** [this'] is [this] after the submission was dropped, appended to the
    group at index [j], or placed in a new group. *)
Inductive merged (env : Imports) (this : InstancedBuffer) (subModel : SubModel)
    (attrs : IInstancedAttributeBlock) (passIdx : Z) : InstancedBuffer → Prop :=
  | merged_dropped :
      lands env this subModel attrs = None →
      merged env this subModel attrs passIdx this
  | merged_into j g g' device' :
      lands env this subModel attrs = Some j →
      first_fit (sub_indexBuffer subModel) (sub_lightingMap env subModel)
        (instances this) = Some (j, g) →
      stride g = sub_stride attrs →
      appended g (buffer attrs) (sub_hShader env subModel passIdx)
        (sub_hDescriptorSet env subModel) g' →
      nextObject device' = nextObject (_device this) →
      merged env this subModel attrs passIdx
        {| instances := <[j := g']> (instances this);
           hPass := hPass this;
           hasPendingModels := true;
           dynamicOffsets := dynamicOffsets this;
           _device := device' |}
  | merged_new g' device' :
      lands env this subModel attrs = Some (length (instances this)) →
      first_fit (sub_indexBuffer subModel) (sub_lightingMap env subModel)
        (instances this) = None →
      created (_device this) (inputAssembler subModel)
        (sub_lightingMap env subModel) (buffer attrs)
        (sub_hShader env subModel passIdx) (sub_hDescriptorSet env subModel) g' →
      merged env this subModel attrs passIdx
        {| instances := instances this ++ [g'];
           hPass := hPass this;
           hasPendingModels := true;
           dynamicOffsets := dynamicOffsets this;
           _device := device' |}.

(** The condition under which [merge] returns early. *)
Definition dropped (env : Imports) (this : InstancedBuffer) (subModel : SubModel)
    (attrs : IInstancedAttributeBlock) : Prop :=
  length (buffer attrs) = 0%nat
  ∨ ∃ j g,
      first_fit (sub_indexBuffer subModel) (sub_lightingMap env subModel)
        (instances this) = Some (j, g)
      ∧ stride g ≠ sub_stride attrs.

(** *** Sequences of calls *)

(** The same call, without a shader override. *)
Definition without_override (op : Op) : Op :=
  match op with
  | OpMerge subModel attrs passIdx _ => OpMerge subModel attrs passIdx None
  | _ => op
  end.

Definition not_destroy (op : Op) : Prop := op ≠ OpDestroy.

(** A call of [merge] or [uploadBuffers]. *)
Definition within_frame (op : Op) : Prop := op ≠ OpClear ∧ op ≠ OpDestroy.

(** A merge of a submission matched on [key]. *)
Definition compatible (env : Imports) (key : JSRef * JSRef * Z) (op : Op) : Prop :=
  match op with
  | OpMerge subModel attrs _ _ => sub_key env subModel attrs = key
  | _ => False
  end.

(** The payloads each group received since it was last emptied, in order
    of arrival: a call of [merge] adds its payload to the group it lands
    in, [clear] empties every group, [destroy] removes the groups. *)
Definition record (env : Imports) (this : InstancedBuffer) (op : Op)
    (received : list (list Uint8Array)) : list (list Uint8Array) :=
  match op with
  | OpMerge subModel attrs _ _ =>
      match lands env this subModel attrs with
      | Some i =>
          if decide (i < length received)%nat
          then alter (λ payloads, payloads ++ [buffer attrs]) i received
          else received ++ [[buffer attrs]]
      | None => received
      end
  | OpUploadBuffers => received
  | OpClear => (λ _, []) <$> received
  | OpDestroy => []
  end.

Fixpoint received (env : Imports) (s : InstancedBuffer * GFXCommandBuffer)
    (ops : list Op) (sofar : list (list Uint8Array)) : list (list Uint8Array) :=
  match ops with
  | [] => sofar
  | op :: ops' =>
      match exec env s op with
      | Normal s' => received env s' ops' (record env s.1 op sofar)
      | Throw _ => sofar
      end
  end.

(** The group [g] holds exactly the payloads [payloads], one per slot. *)
Definition holds (g : IInstancedItem) (payloads : list Uint8Array) : Prop :=
  count g = Z.of_nat (length payloads)
  ∧ ∀ i payload, payloads !! i = Some payload → slot (data g) (stride g) i = payload.

(** *** A checker for the invariant, and sample inputs *)

Definition item_inv_check (g : IInstancedItem) : bool :=
  (0 <=? count g) && (count g <=? capacity g)
  && existsb (λ k, capacity g =? INITIAL_CAPACITY * 2 ^ Z.of_nat k) (seq 0 6)
  && (capacity g <=? MAX_CAPACITY)
  && (Z.of_nat (length (data g)) =? stride g * capacity g).

Definition inv_check (this : InstancedBuffer) : bool :=
  forallb item_inv_check (instances this).

Module Sample.

Definition env : Imports :=
  {| UNIFORM_LIGHTMAP_TEXTURE_BINDING := 11; SHADER_0 := 5; DESCRIPTOR_SET := 9;
     VERTEX := 8; TRANSFER_DST := 2; HOST := 2; DEVICE := 1;
     SubModelPool_get := λ h e, h * 100 + e |}.

Definition pass : Pass :=
  {| pass_device := {| nextObject := 100; calls := [] |}; pass_handle := 7 |}.

(** A submission drawing the geometry with index buffer [ib] and lightmap
    [tex]. *)
Definition subModel (ib : N) (tex : JSRef) (h : Z) : SubModel :=
  {| inputAssembler := {| assembler_id := 1; attributes := []; vertexBuffers := [2%N];
                          indexBuffer := JSObject ib; instanceCount := 0 |};
     descriptorSet := {| getTexture := λ _, tex |};
     handle := h |}.

(** An attribute block of [n] bytes [b]. *)
Definition block (b : Byte.byte) (n : nat) : IInstancedAttributeBlock :=
  {| buffer := replicate n b;
     block_attributes := [{| name := "a_matWorld0"; format := 44;
                             isNormalized := false; stream := 0;
                             isInstanced := false |}] |}.

Definition mergeOp (ib : N) (h : Z) (b : Byte.byte) (n : nat) : Op :=
  OpMerge (subModel ib JSUndefined h) (block b n) 0 None.

(** [n] instances of one geometry, the [i]-th with eight bytes [i] as its
    payload. *)
Definition numbered (n : nat) : list Op :=
  map (λ i, OpMerge (subModel 3 JSUndefined (Z.of_nat i))
              {| buffer := replicate 8 (default Byte.x00 (Byte.of_nat i));
                 block_attributes := [] |} 0 None)
      (seq 0 n).

(** The aggregator after the calls [ops] on a new one. *)
Definition after (ops : list Op) : InstancedBuffer :=
  match run env (new_InstancedBuffer pass, []) ops with
  | Normal s => s.1
  | Throw _ => new_InstancedBuffer pass
  end.

(** Three instances of one geometry, then one of another. *)
Definition frame : InstancedBuffer :=
  Eval vm_compute in
    after [mergeOp 3 1 Byte.x01 4; mergeOp 3 2 Byte.x02 4; mergeOp 3 3 Byte.x03 4;
           mergeOp 4 4 Byte.x04 2].

(** Two frames of one geometry: 1025 instances, [clear], then 1023
    instances. *)
Definition second_frame : InstancedBuffer :=
  after (replicate 1025 (mergeOp 3 1 Byte.x01 1) ++ [OpClear]
         ++ replicate 1023 (mergeOp 3 1 Byte.x01 1)).

(** The same with one more instance: the first group is full again. *)
Definition steady : InstancedBuffer :=
  after (replicate 1025 (mergeOp 3 1 Byte.x01 1) ++ [OpClear]
         ++ replicate 1024 (mergeOp 3 1 Byte.x01 1)).

End Sample.

(** The overflow rule in the words of the specification: when a
    submission has landed in a group that now holds 1024 instances, the
    merge of a further compatible submission creates a group. *)
Definition new_group_when_full (env : Imports) : Prop :=
  ∀ this cmdBuff subA attrsA passA implantA s1 i subB attrsB passB implantB,
    inv this →
    lands env this subA attrsA = Some i →
    exec env (this, cmdBuff) (OpMerge subA attrsA passA implantA) = Normal s1 →
    count <$> instances s1.1 !! i = Some MAX_CAPACITY →
    sub_key env subB attrsB = sub_key env subA attrsA →
    ∃ this',
      merge env s1.1 subB attrsB passB implantB = Normal this'
      ∧ length (instances this') = S (length (instances s1.1)).

(** ** Vocabulary of the further properties *)

(** The descriptor [merge] passes to [createBuffer]. *)
Definition instance_buffer_info (env : Imports) (attrs : IInstancedAttributeBlock)
  : GFXBufferInfo :=
  {| info_usage := js_or (VERTEX env) (TRANSFER_DST env);
     info_memUsage := js_or (HOST env) (DEVICE env);
     info_size := sub_stride attrs * INITIAL_CAPACITY;
     info_stride := sub_stride attrs |}.

(** An attribute of the block as an instanced attribute read from the
    vertex buffer in slot [slot]. *)
Definition instanced (slot : nat) (a : GFXAttribute) : GFXAttribute :=
  {| name := name a; format := format a; isNormalized := isNormalized a;
     stream := Z.of_nat slot; isInstanced := true |}.

(** The descriptor [merge] passes to [createInputAssembler] when the
    instance buffer is the object [id]. *)
Definition instance_assembler_info (id : N) (subModel : SubModel)
    (attrs : IInstancedAttributeBlock) : GFXInputAssemblerInfo :=
  {| info_attributes :=
       attributes (inputAssembler subModel)
       ++ map (instanced (length (vertexBuffers (inputAssembler subModel))))
            (block_attributes attrs);
     info_vertexBuffers := vertexBuffers (inputAssembler subModel) ++ [id];
     info_indexBuffer := indexBuffer (inputAssembler subModel) |}.

(** The calls a merge makes on the device: none when the submission is
    dropped or appended to a group with room, one [resize] when the group
    is full, a buffer and an input assembler when a group is created. *)
Definition merge_calls (env : Imports) (this : InstancedBuffer)
    (subModel : SubModel) (attrs : IInstancedAttributeBlock) : list GFXCall :=
  match lands env this subModel attrs with
  | None => []
  | Some i =>
      match instances this !! i with
      | Some g =>
          if capacity g <=? count g
          then [ResizeBuffer (buffer_id (vb g)) (stride g * (2 * capacity g))]
          else []
      | None =>
          [CreateBuffer (nextObject (_device this)) (instance_buffer_info env attrs);
           CreateInputAssembler (N.succ (nextObject (_device this)))
             (instance_assembler_info (nextObject (_device this)) subModel attrs)]
      end
  end.

(** The vertex buffer and the device after the resize branch of [merge],
    taken or not. *)
Definition grown (device : GFXDevice) (g : IInstancedItem) : GFXBuffer * GFXDevice :=
  if capacity g <=? count g
  then GFXBuffer_resize device (vb g) (stride g * (2 * capacity g))
  else (vb g, device).

(** [this'] is [this] after a merge, with the device and the objects of
    the group in full. *)
Inductive merge_outcome (env : Imports) (this : InstancedBuffer)
    (subModel : SubModel) (attrs : IInstancedAttributeBlock) (passIdx : Z)
  : InstancedBuffer → Prop :=
  | outcome_dropped :
      lands env this subModel attrs = None →
      merge_outcome env this subModel attrs passIdx this
  | outcome_appended j g g' :
      lands env this subModel attrs = Some j →
      instances this !! j = Some g →
      count g < MAX_CAPACITY →
      group_key g = sub_key env subModel attrs →
      appended g (buffer attrs) (sub_hShader env subModel passIdx)
        (sub_hDescriptorSet env subModel) g' →
      vb g' = (grown (_device this) g).1 →
      merge_outcome env this subModel attrs passIdx
        {| instances := <[j := g']> (instances this);
           hPass := hPass this;
           hasPendingModels := true;
           dynamicOffsets := dynamicOffsets this;
           _device := (grown (_device this) g).2 |}
  | outcome_created g' :
      lands env this subModel attrs = Some (length (instances this)) →
      created (_device this) (inputAssembler subModel)
        (sub_lightingMap env subModel) (buffer attrs)
        (sub_hShader env subModel passIdx) (sub_hDescriptorSet env subModel) g' →
      vb g' = {| buffer_id := nextObject (_device this);
                 buffer_info := instance_buffer_info env attrs;
                 buffer_size := sub_stride attrs * INITIAL_CAPACITY |} →
      ia g' = {| assembler_id := N.succ (nextObject (_device this));
                 attributes :=
                   info_attributes
                     (instance_assembler_info (nextObject (_device this)) subModel attrs);
                 vertexBuffers :=
                   vertexBuffers (inputAssembler subModel)
                   ++ [nextObject (_device this)];
                 indexBuffer := indexBuffer (inputAssembler subModel);
                 instanceCount := 0 |} →
      merge_outcome env this subModel attrs passIdx
        {| instances := instances this ++ [g'];
           hPass := hPass this;
           hasPendingModels := true;
           dynamicOffsets := dynamicOffsets this;
           _device :=
             {| nextObject := N.succ (N.succ (nextObject (_device this)));
                calls := calls (_device this)
                  ++ [CreateBuffer (nextObject (_device this))
                        (instance_buffer_info env attrs);
                      CreateInputAssembler (N.succ (nextObject (_device this)))
                        (instance_assembler_info (nextObject (_device this))
                           subModel attrs)] |} |}.

(** The buffers and the input assemblers alive after a call, when the call
    is legal: [resize] and [destroy] need a live object, [destroy] ends its
    life. [None] is a call on an object that is not alive. *)
Definition track (alive : option (list N * list N)) (c : GFXCall)
  : option (list N * list N) :=
  match alive with
  | None => None
  | Some (buffers, assemblers) =>
      match c with
      | CreateBuffer id _ => Some (buffers ++ [id], assemblers)
      | ResizeBuffer id _ =>
          if decide (id ∈ buffers) then Some (buffers, assemblers) else None
      | DestroyBuffer id =>
          if decide (id ∈ buffers)
          then Some (filter (λ x, x ≠ id) buffers, assemblers) else None
      | CreateInputAssembler id _ => Some (buffers, assemblers ++ [id])
      | DestroyInputAssembler id =>
          if decide (id ∈ assemblers)
          then Some (buffers, filter (λ x, x ≠ id) assemblers) else None
      end
  end.

(** The objects alive after a trace of calls that starts with none. *)
Definition alive_after (t : list GFXCall) : option (list N * list N) :=
  foldl track (Some ([], [])) t.

(** The identities of the vertex buffers and of the input assemblers of
    the groups. *)
Definition group_buffers (this : InstancedBuffer) : list N :=
  map (λ g, buffer_id (vb g)) (instances this).

Definition group_assemblers (this : InstancedBuffer) : list N :=
  map (λ g, assembler_id (ia g)) (instances this).

(** The calls made since the device was in state [device0] are legal and
    leave exactly the objects of the groups alive. *)
Record owns (device0 : GFXDevice) (this : InstancedBuffer) : Prop := {
  owns_trace :
    ∃ t, calls (_device this) = calls device0 ++ t
         ∧ alive_after t = Some (group_buffers this, group_assemblers this);
  owns_buffers_distinct : NoDup (group_buffers this);
  owns_assemblers_distinct : NoDup (group_assemblers this);
  owns_buffers_known :
    Forall (λ id, (id < nextObject (_device this))%N) (group_buffers this);
  owns_assemblers_known :
    Forall (λ id, (id < nextObject (_device this))%N) (group_assemblers this);
}.

(** A clear flag means empty groups. *)
Definition quiet (this : InstancedBuffer) : Prop :=
  hasPendingModels this = false → Forall (λ g, count g = 0) (instances this).

(** A set flag means a group with an instance. *)
Definition busy (this : InstancedBuffer) : Prop :=
  hasPendingModels this = true → Exists (λ g, 0 < count g) (instances this).

(** The capacity is the first one, or less than twice the count. *)
Definition tight (g : IInstancedItem) : Prop :=
  capacity g = INITIAL_CAPACITY ∨ capacity g < 2 * count g.

(** The vertex buffer of the group has the size of [data] and is the last
    vertex buffer of the input assembler of the group. *)
Definition wired (g : IInstancedItem) : Prop :=
  buffer_size (vb g) = Z.of_nat (length (data g))
  ∧ last (vertexBuffers (ia g)) = Some (buffer_id (vb g)).

(** The aggregator registered for a pass and an extra key. *)
Definition entry (registry : Registry) (passRef : N) (extraKey : Z) : option N :=
  _buffers registry !! passRef ≫= (λ record, record !! extraKey).

(** Registered aggregators exist, and no aggregator is registered twice. *)
Record registry_wf (registry : Registry) : Prop := {
  wf_exists : ∀ p k r, entry registry p k = Some r → is_Some (heap registry !! r);
  wf_once : ∀ p k p' k' r,
    entry registry p k = Some r → entry registry p' k' = Some r → p = p' ∧ k = k';
}.

(** [g'] is [g] later in the same frame: same key, same input assembler
    but for its instance count, no fewer instances, no less capacity, and
    the slots of [g] unchanged. *)
Record extends (g g' : IInstancedItem) : Prop := {
  ext_key : group_key g' = group_key g;
  ext_ia : ∀ n, set_instanceCount (ia g') n = set_instanceCount (ia g) n;
  ext_count : count g ≤ count g';
  ext_capacity : capacity g ≤ capacity g';
  ext_data :
    take (Z.to_nat (count g) * Z.to_nat (stride g)) (data g')
    = take (Z.to_nat (count g) * Z.to_nat (stride g)) (data g);
}.

(** [s'] replays towards [F] the calls that have brought a cleared
    aggregator to [s] and will bring it to [F]: [s'] has the groups of [F],
    with their capacity, buffers and bytes; a group that [s] has holds in
    [s'] as many instances as in [s], with the handles and input assembler
    it has in [s] or those it will have in [F]; the other groups are
    empty. *)
Record replays (s s' F : InstancedBuffer) : Prop := {
  rp_length : length (instances s') = length (instances F);
  rp_hPass : hPass s' = hPass F;
  rp_offsets : dynamicOffsets s' = dynamicOffsets F;
  rp_device : _device s' = _device F;
  rp_flag : hasPendingModels s' = hasPendingModels s;
  rp_groups : ∀ i g' gF,
    instances s' !! i = Some g' → instances F !! i = Some gF →
    capacity g' = capacity gF ∧ vb g' = vb gF ∧ data g' = data gF
    ∧ stride g' = stride gF ∧ lightingMap g' = lightingMap gF
    ∧ match instances s !! i with
      | Some g =>
          count g' = count g
          ∧ (hShader g' = hShader g ∨ hShader g' = hShader gF)
          ∧ (hDescriptorSet g' = hDescriptorSet g
             ∨ hDescriptorSet g' = hDescriptorSet gF)
          ∧ (ia g' = ia g ∨ ia g' = ia gF)
      | None =>
          count g' = 0 ∧ hShader g' = hShader gF
          ∧ hDescriptorSet g' = hDescriptorSet gF ∧ ia g' = ia gF
      end;
}.

(** Every group of [s] is a group of [F], later in the frame. *)
Definition future (s F : InstancedBuffer) : Prop :=
  ∀ i g, instances s !! i = Some g →
         ∃ gF, instances F !! i = Some gF ∧ extends g gF.

(** The calls on the device a group of its capacity has cost: two to
    create its buffer and its binding, one for each doubling of the
    capacity from 32. *)
Definition allocations (g : IInstancedItem) : Z :=
  2 + Z.log2 (capacity g / INITIAL_CAPACITY).

Definition paid (this : InstancedBuffer) : Z :=
  foldr (λ g n, allocations g + n) 0 (instances this).

(** The instances the input assembler of the group draws lie within the
    capacity of the group. *)
Definition drawable (g : IInstancedItem) : Prop :=
  0 ≤ instanceCount (ia g) ≤ capacity g.

(** ** Arithmetic and typed-array lemmas *)

Lemma ToInt32_small z : - 2 ^ 31 ≤ z < 2 ^ 31 → ToInt32 z = z.
Proof.
  intros Hz. unfold ToInt32.
  rewrite Z.mod_small by lia. lia.
Qed.

Lemma js_shl_1 c : 0 ≤ c < 2 ^ 30 → js_shl c 1 = 2 * c.
Proof.
  intros Hc. unfold js_shl.
  rewrite (ToInt32_small c) by lia.
  change (1 mod 32) with 1.
  rewrite Z.shiftl_mul_pow2 by lia.
  rewrite ToInt32_small by lia. lia.
Qed.

Lemma new_Uint8Array_ok n :
  0 ≤ n → new_Uint8Array n = Normal (replicate (Z.to_nat n) Byte.x00).
Proof.
  intros Hn. unfold new_Uint8Array.
  destruct (Z.ltb_spec n 0); [lia | done].
Qed.

Lemma Uint8Array_set_ok target source offset :
  0 ≤ offset →
  offset + Z.of_nat (length source) ≤ Z.of_nat (length target) →
  Uint8Array_set target source offset =
    Normal (take (Z.to_nat offset) target ++ source
            ++ drop (Z.to_nat offset + length source)%nat target).
Proof.
  intros H0 Hfit. unfold Uint8Array_set.
  destruct (Z.ltb_spec offset 0); [lia |].
  destruct (Z.ltb_spec (Z.of_nat (length target))
              (offset + Z.of_nat (length source))); [lia | done].
Qed.

Lemma set_length (target source : Uint8Array) (offset : nat) :
  (offset + length source ≤ length target)%nat →
  length (take offset target ++ source ++ drop (offset + length source) target)
  = length target.
Proof.
  intros Hfit. rewrite !length_app, length_take, length_drop. lia.
Qed.

Lemma set_take (target source : Uint8Array) (offset : nat) :
  (offset ≤ length target)%nat →
  take offset (take offset target ++ source ++ drop (offset + length source) target)
  = take offset target.
Proof.
  intros Hfit. rewrite take_app_le by (rewrite length_take; lia).
  rewrite take_take. f_equal. lia.
Qed.

Lemma set_slot (target source : Uint8Array) (s : Z) (i : nat) :
  0 ≤ s → length source = Z.to_nat s →
  (i * Z.to_nat s ≤ length target)%nat →
  slot (take (i * Z.to_nat s) target ++ source
        ++ drop (i * Z.to_nat s + length source) target) s i = source.
Proof.
  intros Hs Hlen Hfit. unfold slot.
  rewrite drop_app_length' by (rewrite length_take; lia).
  rewrite take_app_length' by lia. done.
Qed.

(** Slots below a common prefix coincide. *)
Lemma slot_prefix (d d' : Uint8Array) (s : Z) (n i : nat) :
  take (n * Z.to_nat s) d' = take (n * Z.to_nat s) d →
  (i < n)%nat → slot d' s i = slot d s i.
Proof.
  intros Hpre Hi. unfold slot.
  assert (Hle : (i * Z.to_nat s + Z.to_nat s ≤ n * Z.to_nat s)%nat) by nia.
  rewrite !take_drop_commute.
  replace (take (i * Z.to_nat s + Z.to_nat s) d')
    with (take (i * Z.to_nat s + Z.to_nat s) (take (n * Z.to_nat s) d'))
    by (rewrite take_take; f_equal; lia).
  replace (take (i * Z.to_nat s + Z.to_nat s) d)
    with (take (i * Z.to_nat s + Z.to_nat s) (take (n * Z.to_nat s) d))
    by (rewrite take_take; f_equal; lia).
  by rewrite Hpre.
Qed.

(** ** Capacities *)

Lemma pow2_multiple_pos c : pow2_multiple c → INITIAL_CAPACITY ≤ c.
Proof.
  intros [k ->]. unfold INITIAL_CAPACITY.
  assert (0 < 2 ^ Z.of_nat k) by (apply Z.pow_pos_nonneg; lia). lia.
Qed.

Lemma pow2_multiple_double c :
  pow2_multiple c → c < MAX_CAPACITY →
  pow2_multiple (2 * c) ∧ 2 * c ≤ MAX_CAPACITY.
Proof.
  intros [k ->] Hlt. unfold INITIAL_CAPACITY, MAX_CAPACITY in *. split.
  - exists (S k). rewrite Nat2Z.inj_succ, Z.pow_succ_r by lia.
    unfold INITIAL_CAPACITY. lia.
  - assert (Hk : Z.of_nat k < 5).
    { apply (Z.pow_lt_mono_r_iff 2); lia. }
    assert (2 ^ Z.of_nat k ≤ 2 ^ 4) by (apply Z.pow_le_mono_r; lia).
    lia.
Qed.

(** ** One submission into one group *)

Lemma grow_spec device g :
  item_inv g → count g < MAX_CAPACITY → capacity g ≤ count g → 0 ≤ stride g →
  grow device g =
    Normal ({| count := count g; capacity := 2 * capacity g;
               vb := (GFXBuffer_resize device (vb g) (stride g * (2 * capacity g))).1;
               data := data g ++ replicate (Z.to_nat (stride g * capacity g)) Byte.x00;
               ia := ia g; stride := stride g; hShader := hShader g;
               hDescriptorSet := hDescriptorSet g;
               lightingMap := lightingMap g |},
            (GFXBuffer_resize device (vb g) (stride g * (2 * capacity g))).2).
Proof.
  intros [Hc0 Hcc Hpow Hmax Hlen] Hlt Hfull Hs.
  pose proof (pow2_multiple_pos _ Hpow) as Hpos. unfold INITIAL_CAPACITY in Hpos.
  unfold MAX_CAPACITY in *.
  unfold grow. rewrite js_shl_1 by lia.
  rewrite new_Uint8Array_ok by nia. cbn [mbind Completion_bind].
  rewrite Uint8Array_set_ok; [| lia | rewrite length_replicate; nia].
  cbn [mbind Completion_bind mret Completion_ret]. simpl.
  do 3 f_equal. rewrite drop_replicate. do 2 f_equal. nia.
Qed.

Lemma put_spec g attrs h d :
  0 ≤ count g → count g < capacity g →
  Z.of_nat (length (data g)) = stride g * capacity g →
  stride g = sub_stride attrs →
  ∃ g', put g attrs h d = Normal g' ∧
    count g' = count g + 1 ∧ stride g' = stride g ∧ capacity g' = capacity g ∧
    ia g' = ia g ∧ lightingMap g' = lightingMap g ∧ vb g' = vb g ∧
    hShader g' = h ∧ hDescriptorSet g' = d ∧
    length (data g') = length (data g) ∧
    take (Z.to_nat (count g) * Z.to_nat (stride g)) (data g')
    = take (Z.to_nat (count g) * Z.to_nat (stride g)) (data g) ∧
    slot (data g') (stride g) (Z.to_nat (count g)) = buffer attrs.
Proof.
  intros Hc0 Hroom Hlen Hs. unfold sub_stride in Hs.
  assert (Hoff : Z.to_nat (stride g * count g)
                 = (Z.to_nat (count g) * Z.to_nat (stride g))%nat) by nia.
  assert (Hfit : (Z.to_nat (count g) * Z.to_nat (stride g)
                  + length (buffer attrs) ≤ length (data g))%nat) by nia.
  unfold put. rewrite Uint8Array_set_ok by nia.
  eexists. split; [reflexivity |]. cbn [count stride capacity ia lightingMap vb
    hShader hDescriptorSet data]. rewrite Hoff.
  repeat split.
  - unfold num_neq. destruct (Z.eqb_spec (hShader g) h); simpl; congruence.
  - unfold num_neq. destruct (Z.eqb_spec (hDescriptorSet g) d); simpl; congruence.
  - apply set_length. lia.
  - apply set_take. lia.
  - apply set_slot; lia.
Qed.

Lemma append_spec device g attrs h d :
  item_inv g → count g < MAX_CAPACITY → stride g = sub_stride attrs →
  ∃ g', append device g attrs h d
        = Normal (g', if capacity g <=? count g
                      then (GFXBuffer_resize device (vb g)
                              (stride g * (2 * capacity g))).2
                      else device)
        ∧ appended g (buffer attrs) h d g'.
Proof.
  intros Hinv Hlt Hs.
  pose proof Hinv as [Hc0 Hcc Hpow Hmax Hlen].
  pose proof (pow2_multiple_pos _ Hpow) as Hpos. unfold INITIAL_CAPACITY in Hpos.
  assert (Hs0 : 0 ≤ stride g) by (rewrite Hs; unfold sub_stride; lia).
  unfold append. destruct (Z.leb_spec (capacity g) (count g)) as [Hfull | Hroom].
  - rewrite grow_spec by done. cbn [mbind Completion_bind].
    set (g1 := {| count := count g; capacity := 2 * capacity g |}).
    destruct (pow2_multiple_double _ Hpow ltac:(lia)) as [Hpow2 Hmax2].
    destruct (put_spec g1 attrs h d) as
      (g' & -> & Hc & Hst & Hcap & Hia & Hlm & Hvb & Hh & Hd & Hl & Hold & Hnew);
      [done | simpl; lia | | done |].
    { simpl. rewrite length_app, length_replicate. nia. }
    eexists; split; [reflexivity |]. simpl in *.
    split; try done.
    + rewrite Hcap. destruct (Z.leb_spec (capacity g) (count g)); lia.
    + by rewrite Hvb.
    + rewrite Hold. apply take_app_le. nia.
    + split; rewrite ?Hc, ?Hcap, ?Hst; try done; try lia.
      rewrite Hl, length_app, length_replicate. nia.
  - cbn [mbind mret Completion_bind Completion_ret].
    destruct (put_spec g attrs h d) as
      (g' & -> & Hc & Hst & Hcap & Hia & Hlm & Hvb & Hh & Hd & Hl & Hold & Hnew);
      [done | lia | done | done |].
    eexists; split; [reflexivity |].
    split; try done.
    + rewrite Hcap. destruct (Z.leb_spec (capacity g) (count g)); lia.
    + by rewrite Hvb.
    + split; rewrite ?Hc, ?Hcap, ?Hst, ?Hl; try done; lia.
Qed.

(** ** The scan of [merge] is a first-fit search *)

Lemma merge_loop_find this i pending sourceIA tex s h d attrs :
  merge_loop this i pending sourceIA tex s h d attrs =
  match first_fit (indexBuffer sourceIA) tex pending with
  | None => Normal None
  | Some (j, g) =>
      if num_neq (stride g) s then Normal (Some this)
      else
        '(g', device') ← append (_device this) g attrs h d;
        mret (Some {| instances := <[(i + j)%nat := g']> (instances this);
                      hPass := hPass this;
                      hasPendingModels := true;
                      dynamicOffsets := dynamicOffsets this;
                      _device := device' |})
  end.
Proof.
  unfold first_fit. revert i.
  induction pending as [| g pending IH]; intros i; [done |].
  cbn [merge_loop list_find].
  destruct (decide (fits (indexBuffer sourceIA) tex g)) as [(Hib & Hc & Htex) | Hno].
  - unfold ref_neq. rewrite !bool_decide_eq_true_2 by done.
    destruct (Z.leb_spec MAX_CAPACITY (count g)); [lia |].
    cbn [negb orb]. rewrite Nat.add_0_r. done.
  - assert (Hskip :
      ref_neq (indexBuffer (ia g)) (indexBuffer sourceIA)
      || (MAX_CAPACITY <=? count g) = true
      ∨ ref_neq (indexBuffer (ia g)) (indexBuffer sourceIA)
        || (MAX_CAPACITY <=? count g) = false
        ∧ ref_neq (lightingMap g) tex = true).
    { unfold ref_neq, fits in *.
      destruct (decide (indexBuffer (ia g) = indexBuffer sourceIA));
        [| left; by rewrite bool_decide_eq_false_2].
      rewrite (bool_decide_eq_true_2 _ e). cbn [negb orb].
      destruct (Z.leb_spec MAX_CAPACITY (count g)); [by left | right].
      split; [done |]. rewrite bool_decide_eq_false_2; [done |]. naive_solver. }
    assert (Hnext :
      merge_loop this (S i) pending sourceIA tex s h d attrs =
      match prod_map S id <$> list_find (fits (indexBuffer sourceIA) tex) pending with
      | None => Normal None
      | Some (j, g0) =>
          if num_neq (stride g0) s then Normal (Some this)
          else
            '(g', device') ← append (_device this) g0 attrs h d;
            mret (Some {| instances := <[(i + j)%nat := g']> (instances this);
                          hPass := hPass this;
                          hasPendingModels := true;
                          dynamicOffsets := dynamicOffsets this;
                          _device := device' |})
      end).
    { rewrite IH.
      destruct (list_find (fits (indexBuffer sourceIA) tex) pending)
        as [[j g0] |]; [| done].
      cbn. by rewrite Nat.add_succ_r. }
    destruct Hskip as [-> | [-> ->]]; exact Hnext.
Qed.

Lemma create_spec env this sourceIA tex h d attrs :
  ∃ g' device',
    create env this sourceIA tex (sub_stride attrs) h d attrs
    = Normal {| instances := instances this ++ [g'];
                hPass := hPass this;
                hasPendingModels := true;
                dynamicOffsets := dynamicOffsets this;
                _device := device' |}
    ∧ created (_device this) sourceIA tex (buffer attrs) h d g'.
Proof.
  unfold create, sub_stride, INITIAL_CAPACITY. cbn [createBuffer].
  rewrite new_Uint8Array_ok by lia. cbn [mbind Completion_bind].
  rewrite Uint8Array_set_ok; [| lia | rewrite length_replicate; lia].
  cbn [mbind Completion_bind createInputAssembler mret Completion_ret].
  do 2 eexists. split; [reflexivity |].
  assert (Hdata :
    take (Z.to_nat 0) (replicate (Z.to_nat (Z.of_nat (length (buffer attrs)) * 32)) Byte.x00)
    ++ buffer attrs
    ++ drop (Z.to_nat 0 + length (buffer attrs))
         (replicate (Z.to_nat (Z.of_nat (length (buffer attrs)) * 32)) Byte.x00)
    = buffer attrs ++ replicate (31 * length (buffer attrs)) Byte.x00).
  { change (Z.to_nat 0) with 0%nat. rewrite take_0, drop_replicate.
    cbn [app]. do 2 f_equal. lia. }
  split; cbn [count capacity stride ia indexBuffer lightingMap vb buffer_id
              hShader hDescriptorSet data]; try done.
  split; cbn [count capacity stride data]; unfold MAX_CAPACITY; try lia.
  - by exists 0%nat.
  - rewrite Hdata, length_app, length_replicate. lia.
Qed.

Section MergeCases.

Variable env : Imports.
Variables (this : InstancedBuffer) (subModel : SubModel)
          (attrs : IInstancedAttributeBlock) (passIdx : Z)
          (hShaderImplant : option Z).

Let ib := sub_indexBuffer subModel.
Let tex := sub_lightingMap env subModel.
Let h := sub_hShader env subModel passIdx.
Let d := sub_hDescriptorSet env subModel.

Lemma merge_skip :
  sub_stride attrs = 0 →
  merge env this subModel attrs passIdx hShaderImplant = Normal this.
Proof. unfold merge, sub_stride. by intros ->. Qed.

Lemma merge_abort j g :
  sub_stride attrs ≠ 0 →
  first_fit ib tex (instances this) = Some (j, g) →
  stride g ≠ sub_stride attrs →
  merge env this subModel attrs passIdx hShaderImplant = Normal this.
Proof.
  subst ib tex. unfold sub_stride, sub_indexBuffer, sub_lightingMap.
  intros Hs Hfit Hne. unfold merge.
  destruct (Z.eqb_spec (Z.of_nat (length (buffer attrs))) 0); [done |].
  rewrite merge_loop_find, Hfit.
  unfold num_neq. destruct (Z.eqb_spec (stride g) (Z.of_nat (length (buffer attrs))));
    done.
Qed.

Lemma merge_append j g :
  inv this →
  sub_stride attrs ≠ 0 →
  first_fit ib tex (instances this) = Some (j, g) →
  stride g = sub_stride attrs →
  ∃ g' device',
    merge env this subModel attrs passIdx hShaderImplant
    = Normal {| instances := <[j := g']> (instances this);
                hPass := hPass this;
                hasPendingModels := true;
                dynamicOffsets := dynamicOffsets this;
                _device := device' |}
    ∧ appended g (buffer attrs) h d g'
    ∧ nextObject device' = nextObject (_device this).
Proof.
  subst ib tex h d.
  unfold sub_indexBuffer, sub_lightingMap, sub_hShader, sub_hDescriptorSet.
  intros Hinv Hs Hfit Heq. unfold merge.
  destruct (Z.eqb_spec (Z.of_nat (length (buffer attrs))) 0); [done |].
  rewrite merge_loop_find, Hfit.
  unfold num_neq. fold (sub_stride attrs). rewrite <- Heq, Z.eqb_refl.
  cbn [negb].
  apply list_find_Some in Hfit as (Hj & (_ & Hc & _) & _).
  assert (Hg : item_inv g) by (eapply Forall_lookup_1; eauto).
  edestruct (append_spec (_device this) g attrs) as (g' & Happ & Hg'); [done.. |].
  rewrite Happ. cbn. do 2 eexists. split; [reflexivity |].
  split; [done |]. by destruct (capacity g <=? count g).
Qed.

Lemma merge_create :
  sub_stride attrs ≠ 0 →
  first_fit ib tex (instances this) = None →
  ∃ g' device',
    merge env this subModel attrs passIdx hShaderImplant
    = Normal {| instances := instances this ++ [g'];
                hPass := hPass this;
                hasPendingModels := true;
                dynamicOffsets := dynamicOffsets this;
                _device := device' |}
    ∧ created (_device this) (inputAssembler subModel) tex (buffer attrs) h d g'.
Proof.
  subst ib tex h d.
  unfold sub_indexBuffer, sub_lightingMap, sub_hShader, sub_hDescriptorSet.
  intros Hs Hfit. unfold merge.
  destruct (Z.eqb_spec (Z.of_nat (length (buffer attrs))) 0); [done |].
  rewrite merge_loop_find, Hfit.
  cbn [mbind Completion_bind].
  apply create_spec.
Qed.

End MergeCases.

(** ** [uploadBuffers], [clear] and [destroy] as maps over the groups *)

Lemma upload_fold l acc cmdBuff :
  foldl upload_instance (acc, cmdBuff) l =
  (acc ++ map (λ g, if count g =? 0 then g else bound g) l,
   cmdBuff ++ flat_map (λ g, if count g =? 0 then []
                             else [(buffer_id (vb g), data g)]) l).
Proof.
  revert acc cmdBuff. induction l as [| g l IH]; intros acc cmdBuff.
  - cbn. by rewrite !app_nil_r.
  - cbn [foldl map flat_map]. unfold upload_instance at 2.
    destruct (count g =? 0); cbn [fst snd]; rewrite IH.
    + by rewrite <- app_assoc.
    + unfold updateBuffer. cbn. by rewrite <- !app_assoc.
Qed.

Lemma uploadBuffers_unfold this cmdBuff :
  uploadBuffers this cmdBuff =
  ({| instances := map (λ g, if count g =? 0 then g else bound g) (instances this);
      hPass := hPass this;
      hasPendingModels := hasPendingModels this;
      dynamicOffsets := dynamicOffsets this;
      _device := _device this |},
   cmdBuff ++ flat_map (λ g, if count g =? 0 then []
                             else [(buffer_id (vb g), data g)]) (instances this)).
Proof. unfold uploadBuffers. by rewrite upload_fold. Qed.

Lemma destroy_fold l device :
  calls (foldl destroy_instance device l) =
  calls device ++ flat_map (λ g, [DestroyBuffer (buffer_id (vb g));
                                  DestroyInputAssembler (assembler_id (ia g))]) l.
Proof.
  revert device. induction l as [| g l IH]; intros device.
  - cbn. by rewrite app_nil_r.
  - cbn [foldl flat_map]. rewrite IH. cbn. by rewrite <- !app_assoc.
Qed.

Lemma item_inv_bound g : item_inv g → item_inv (bound g).
Proof. intros []. by split. Qed.

Lemma item_inv_clear g : item_inv g → item_inv (clear_instance g).
Proof.
  intros [H0 Hc Hp Hm Hl]. split; cbn; try done.
  pose proof (pow2_multiple_pos _ Hp). unfold INITIAL_CAPACITY in *. lia.
Qed.

(** ** The three outcomes of [merge] *)

Lemma merge_total env this subModel attrs passIdx hShaderImplant :
  inv this →
  ∃ this', merge env this subModel attrs passIdx hShaderImplant = Normal this'
           ∧ merged env this subModel attrs passIdx this'.
Proof.
  intros Hinv.
  destruct (decide (sub_stride attrs = 0)) as [H0 | H0].
  { exists this. split; [by apply merge_skip |].
    constructor. unfold lands. by rewrite H0. }
  assert (Hnz : (sub_stride attrs =? 0) = false) by by apply Z.eqb_neq.
  destruct (first_fit (sub_indexBuffer subModel) (sub_lightingMap env subModel)
              (instances this)) as [[j g] |] eqn:Hfit.
  - destruct (decide (stride g = sub_stride attrs)) as [Hs | Hs].
    + destruct (merge_append env this subModel attrs passIdx hShaderImplant j g)
        as (g' & device' & Hm & Happ & Hdev); try done.
      eexists. split; [exact Hm |].
      eapply merged_into; try done.
      unfold lands. rewrite Hnz, Hfit. by rewrite (proj2 (Z.eqb_eq _ _) Hs).
    + exists this. split; [by eapply merge_abort |].
      constructor. unfold lands. rewrite Hnz, Hfit.
      by rewrite (proj2 (Z.eqb_neq _ _) Hs).
  - destruct (merge_create env this subModel attrs passIdx hShaderImplant)
      as (g' & device' & Hm & Hnew); try done.
    eexists. split; [exact Hm |].
    eapply merged_new; try done.
    unfold lands. by rewrite Hnz, Hfit.
Qed.

Lemma merged_inv env this subModel attrs passIdx this' :
  merged env this subModel attrs passIdx this' → inv this → inv this'.
Proof.
  unfold inv. intros [| j g g' device' _ _ _ Happ _ | g' device' _ _ Hnew] Hinv;
    cbn [instances]; [done | |].
  - apply Forall_insert; [done | apply Happ].
  - apply Forall_app. split; [done |]. apply Forall_singleton, Hnew.
Qed.

(** A merge keeps every group in place, with its key, and lowers no
    count. *)
Lemma merged_frame env this subModel attrs passIdx this' i g :
  merged env this subModel attrs passIdx this' →
  instances this !! i = Some g →
  ∃ g', instances this' !! i = Some g' ∧ group_key g' = group_key g
        ∧ count g ≤ count g'.
Proof.
  intros [| j g0 g' device' _ Hfit _ Happ _ | g' device' _ _ _] Hi; cbn [instances].
  - exists g. split; [done |]. split; [done | lia].
  - apply list_find_Some in Hfit as (Hj & _ & _).
    destruct (decide (i = j)) as [-> | Hne].
    + exists g'. rewrite list_lookup_insert_eq by (by eapply lookup_lt_Some).
      assert (g0 = g) as -> by congruence.
      destruct Happ. unfold group_key. split; [done |].
      split; [congruence | lia].
    + exists g. rewrite list_lookup_insert_ne by done.
      split; [done |]. split; [done | lia].
  - exists g. rewrite lookup_app_l by (by eapply lookup_lt_Some).
    split; [done |]. split; [done | lia].
Qed.

(** ** Calls and sequences of calls *)

Lemma exec_total env s op :
  inv s.1 → ∃ s', exec env s op = Normal s' ∧ inv s'.1.
Proof.
  intros Hinv. destruct op as [subModel attrs passIdx imp | | |]; cbn [exec].
  - destruct (merge_total env s.1 subModel attrs passIdx imp Hinv)
      as (this' & -> & Hm).
    eexists. split; [reflexivity |]. by eapply merged_inv.
  - eexists. split; [reflexivity |]. rewrite uploadBuffers_unfold.
    unfold inv in *. cbn. apply Forall_fmap.
    eapply List.Forall_impl; [| exact Hinv]. intros g Hg. cbn.
    destruct (count g =? 0); [done | by apply item_inv_bound].
  - eexists. split; [reflexivity |]. unfold inv in *. cbn.
    apply Forall_fmap. eapply List.Forall_impl; [| exact Hinv].
    intros g Hg. by apply item_inv_clear.
  - eexists. split; [reflexivity |]. unfold inv. cbn. constructor.
Qed.

Lemma run_total env s ops :
  inv s.1 → ∃ s', run env s ops = Normal s' ∧ inv s'.1.
Proof.
  revert s. induction ops as [| op ops IH]; intros s Hinv.
  - by exists s.
  - destruct (exec_total env s op Hinv) as (s1 & Hs1 & Hinv1).
    destruct (IH s1 Hinv1) as (s' & Hs' & Hinv').
    exists s'. cbn [run]. by rewrite Hs1.
Qed.

Lemma run_app env s ops1 ops2 :
  run env s (ops1 ++ ops2) = (s' ← run env s ops1; run env s' ops2).
Proof.
  revert s. induction ops1 as [| op ops1 IH]; intros s; [done |].
  cbn [run app]. destruct (exec env s op) as [s1 | e]; [| done].
  cbn. apply IH.
Qed.

(** Every call but [destroy] keeps every group in place with its key;
    [merge] and [uploadBuffers] lower no count. *)
Lemma exec_frame env s op s' i g :
  inv s.1 → exec env s op = Normal s' → op ≠ OpDestroy →
  instances s.1 !! i = Some g →
  ∃ g', instances s'.1 !! i = Some g' ∧ group_key g' = group_key g
        ∧ (op ≠ OpClear → count g ≤ count g').
Proof.
  intros Hinv Hex Hop Hi.
  destruct op as [subModel attrs passIdx imp | | |]; cbn [exec] in Hex; [| | | done].
  - destruct (merge_total env s.1 subModel attrs passIdx imp Hinv)
      as (this' & Hm & Hmerged).
    rewrite Hm in Hex. cbn in Hex. injection Hex as <-.
    destruct (merged_frame _ _ _ _ _ _ i g Hmerged Hi) as (g' & ? & ? & ?).
    by exists g'.
  - injection Hex as <-. rewrite uploadBuffers_unfold. cbn.
    rewrite list_lookup_fmap, Hi. cbn.
    eexists. split; [reflexivity |].
    destruct (count g =? 0); (split; [done |]); cbn; lia.
  - injection Hex as <-. cbn. rewrite list_lookup_fmap, Hi. cbn.
    eexists. split; [reflexivity |]. done.
Qed.

(** ** Soundness of the invariant checker *)

Lemma inv_check_sound this : inv_check this = true → inv this.
Proof.
  unfold inv_check, inv. rewrite forallb_forall, List.Forall_forall.
  intros H g Hg. specialize (H g Hg). unfold item_inv_check in H.
  rewrite !andb_true_iff, existsb_exists in H.
  destruct H as ((((H0 & Hc) & (k & _ & Hk)) & Hm) & Hl).
  split; try lia. exists k. lia.
Qed.

(** ** Invariants *)

(** C2: every call of [merge], [uploadBuffers], [clear] and [destroy] on
    an aggregator whose groups satisfy the invariant ([0 <= count <=
    capacity], capacity a power-of-two multiple of 32 not above 1024,
    [data.length = stride * capacity]) returns, leaves the invariant true
    of every group, and leaves the stride of every group it keeps
    unchanged. *)
Theorem invariants_preserved env s op :
  inv s.1 →
  ∃ s', exec env s op = Normal s' ∧ inv s'.1 ∧ strides_kept s.1 s'.1.
Proof.
  intros Hinv. destruct (exec_total env s op Hinv) as (s' & Hex & Hinv').
  exists s'. split; [done |]. split; [done |].
  intros i g g' Hi Hi'.
  assert (op = OpDestroy ∨ op ≠ OpDestroy) as [-> | Hop]
    by (destruct op; (by left) || (by right)).
  - cbn in Hex. injection Hex as <-. done.
  - destruct (exec_frame env s op s' i g Hinv Hex Hop Hi) as (g1 & Hg1 & Hkey & _).
    assert (g1 = g') as -> by congruence.
    unfold group_key in Hkey. congruence.
Qed.

Lemma invariants_preserved_witness :
  inv (Sample.frame, @nil (N * Uint8Array)).1
  ∧ ∃ s', exec Sample.env (Sample.frame, []) (Sample.mergeOp 3 5 Byte.x05 4)
          = Normal s'
          ∧ inv s'.1 ∧ strides_kept (Sample.frame, @nil (N * Uint8Array)).1 s'.1.
Proof.
  assert (H : inv (Sample.frame, @nil (N * Uint8Array)).1)
    by (apply inv_check_sound; vm_compute; reflexivity).
  split; [exact H |].
  exact (invariants_preserved Sample.env (Sample.frame, [])
           (Sample.mergeOp 3 5 Byte.x05 4) H).
Defined.

(** ** The frame life cycle *)

(** C5: [clear] sets the count of every group to 0 and the dirty flag to
    false; the group list keeps its groups in order, each with its
    capacity, stride, data, vertex buffer, input assembler and handles, and
    the device is not called. An [uploadBuffers] right after [clear]
    records no buffer update and changes nothing. *)
Theorem clear_resets_counts this cmdBuff :
  Forall2 (λ g g', count g' = 0 ∧ capacity g' = capacity g
                   ∧ stride g' = stride g ∧ data g' = data g ∧ vb g' = vb g
                   ∧ ia g' = ia g ∧ hShader g' = hShader g
                   ∧ hDescriptorSet g' = hDescriptorSet g
                   ∧ lightingMap g' = lightingMap g)
    (instances this) (instances (clear this))
  ∧ hasPendingModels (clear this) = false
  ∧ hPass (clear this) = hPass this
  ∧ dynamicOffsets (clear this) = dynamicOffsets this
  ∧ _device (clear this) = _device this
  ∧ uploadBuffers (clear this) cmdBuff = (clear this, cmdBuff).
Proof.
  split; [| repeat split].
  - cbn. apply Forall2_fmap_r, Forall_Forall2_diag, List.Forall_forall.
    intros g _. by cbn.
  - rewrite uploadBuffers_unfold. cbn.
    assert (Hmap : ∀ l : list IInstancedItem,
      map (λ g, if count g =? 0 then g else bound g) (map clear_instance l)
      = map clear_instance l
      ∧ flat_map (λ g, if count g =? 0 then []
                       else [(buffer_id (vb g), data g)]) (map clear_instance l)
        = []).
    { induction l as [| g l [IH1 IH2]]; [done |]. cbn. by rewrite IH1, IH2. }
    destruct (Hmap (instances this)) as [-> ->]. by rewrite app_nil_r.
Qed.



(** The sample frame uploads two buffers, 128 and 64 bytes long. *)
Example uploadBuffers_sample :
  map (λ u, (u.1, length u.2)) (uploadBuffers Sample.frame []).2
  = [(100%N, 128%nat); (102%N, 64%nat)]
  ∧ map (λ g, instanceCount (ia g)) (instances (uploadBuffers Sample.frame []).1)
    = [3; 1].
Proof. by vm_compute. Qed.

(** C8: [destroy] calls [destroy] on the vertex buffer and on the input
    assembler of every group, in group order, and leaves the group list
    empty. A [merge] of a submission with a non-empty payload on the
    destroyed aggregator then returns with exactly one group, the one a new
    aggregator on the same device gets: [count = 1], [capacity = 32]. *)
Theorem destroy_then_merge env this subModel attrs passIdx hShaderImplant :
  buffer attrs ≠ [] →
  instances (destroy this) = []
  ∧ calls (_device (destroy this))
    = calls (_device this)
      ++ flat_map (λ g, [DestroyBuffer (buffer_id (vb g));
                         DestroyInputAssembler (assembler_id (ia g))])
           (instances this)
  ∧ ∃ this' g',
      merge env (destroy this) subModel attrs passIdx hShaderImplant = Normal this'
      ∧ instances this' = [g'] ∧ count g' = 1 ∧ capacity g' = INITIAL_CAPACITY
      ∧ hasPendingModels this' = true
      ∧ ∃ fresh',
          merge env (new_InstancedBuffer
                       {| pass_device := _device (destroy this);
                          pass_handle := hPass this |})
            subModel attrs passIdx hShaderImplant = Normal fresh'
          ∧ instances fresh' = [g']
          ∧ hasPendingModels fresh' = true
          ∧ _device fresh' = _device this'.
Proof.
  intros Hne. split; [done |]. split; [apply destroy_fold |].
  assert (Hs : (Z.of_nat (length (buffer attrs)) =? 0) = false).
  { apply Z.eqb_neq. destruct (buffer attrs); [done | cbn; lia]. }
  unfold merge. rewrite Hs. cbn [destroy new_InstancedBuffer instances merge_loop].
  cbn [mbind mret Completion_bind Completion_ret].
  destruct (create_spec env (destroy this) (inputAssembler subModel)
              (getTexture (descriptorSet subModel) (UNIFORM_LIGHTMAP_TEXTURE_BINDING env))
              (SubModelPool_get env (handle subModel) (SHADER_0 env + passIdx))
              (SubModelPool_get env (handle subModel) (DESCRIPTOR_SET env)) attrs)
    as (g' & device' & Hc & Hnew).
  unfold sub_stride in Hc. cbn [destroy instances app] in Hc.
  exists {| instances := [g']; hPass := hPass this; hasPendingModels := true;
            dynamicOffsets := dynamicOffsets this; _device := device' |}, g'.
  split; [exact Hc |]. split; [done |].
  split; [apply Hnew |]. split; [apply Hnew |]. split; [done |].
  exists {| instances := [g']; hPass := hPass this; hasPendingModels := true;
            dynamicOffsets := []; _device := device' |}.
  split; [| done].
  unfold create in *. cbn [_device destroy instances hPass dynamicOffsets] in *.
  destruct (createBuffer _ _) as [vb' device1].
  destruct (new_Uint8Array _) as [data0 |]; [| done].
  cbn [mbind Completion_bind] in *.
  destruct (Uint8Array_set _ _ _) as [data' |]; [| done].
  cbn [mbind Completion_bind] in *.
  destruct (createInputAssembler _ _) as [ia' device2].
  cbn in *. by injection Hc as -> ->.
Qed.

Lemma destroy_then_merge_witness :
  buffer (Sample.block Byte.x09 4) ≠ []
  ∧ instances (destroy Sample.frame) = []
  ∧ calls (_device (destroy Sample.frame))
    = calls (_device Sample.frame)
      ++ flat_map (λ g, [DestroyBuffer (buffer_id (vb g));
                         DestroyInputAssembler (assembler_id (ia g))])
           (instances Sample.frame)
  ∧ ∃ this' g',
      merge Sample.env (destroy Sample.frame) (Sample.subModel 3 JSUndefined 9)
        (Sample.block Byte.x09 4) 0 None = Normal this'
      ∧ instances this' = [g'] ∧ count g' = 1 ∧ capacity g' = INITIAL_CAPACITY
      ∧ hasPendingModels this' = true
      ∧ ∃ fresh',
          merge Sample.env
            (new_InstancedBuffer
               {| pass_device := _device (destroy Sample.frame);
                  pass_handle := hPass Sample.frame |})
            (Sample.subModel 3 JSUndefined 9) (Sample.block Byte.x09 4) 0 None
          = Normal fresh'
          ∧ instances fresh' = [g']
          ∧ hasPendingModels fresh' = true
          ∧ _device fresh' = _device this'.
Proof.
  assert (H : buffer (Sample.block Byte.x09 4) ≠ []) by (vm_compute; discriminate).
  split; [exact H |].
  exact (destroy_then_merge Sample.env Sample.frame (Sample.subModel 3 JSUndefined 9)
           (Sample.block Byte.x09 4) 0 None H).
Defined.

(** ** The dirty flag and the shader override *)

(** C9: the shader override of [merge] is never read: two calls that
    differ only in it have the same outcome, and so have two sequences of
    calls that differ only in the overrides of their merges. *)
Theorem hShaderImplant_unused env :
  (∀ this subModel attrs passIdx implant1 implant2,
     merge env this subModel attrs passIdx implant1
     = merge env this subModel attrs passIdx implant2)
  ∧ (∀ s ops, run env s (map without_override ops) = run env s ops).
Proof.
  split; [done |].
  intros s ops. revert s. induction ops as [| op ops IH]; intros s; [done |].
  cbn [map run].
  assert (Hop : exec env s (without_override op) = exec env s op) by by destruct op.
  rewrite Hop. destruct (exec env s op); [| done]. cbn. apply IH.
Qed.

(** A merge that returns has set the dirty flag or changed nothing. *)
Lemma merge_pending env this subModel attrs passIdx implant this' :
  merge env this subModel attrs passIdx implant = Normal this' →
  hasPendingModels this' = true ∨ this' = this.
Proof.
  unfold merge. destruct (_ =? 0).
  { intros [= <-]. by right. }
  rewrite merge_loop_find. destruct (first_fit _ _ _) as [[j g] |].
  - destruct (num_neq _ _).
    { intros [= <-]. by right. }
    destruct (append _ _ _ _ _) as [[g' device'] |]; [| done].
    intros [= <-]. by left.
  - cbn [mbind Completion_bind]. unfold create.
    destruct (createBuffer _ _) as [vb' device1].
    destruct (new_Uint8Array _); [| done]. cbn [mbind Completion_bind].
    destruct (Uint8Array_set _ _ _); [| done]. cbn [mbind Completion_bind].
    destruct (createInputAssembler _ _) as [ia' device2].
    intros [= <-]. by left.
Qed.

Lemma exec_pending env s op s' :
  exec env s op = Normal s' → op ≠ OpClear →
  hasPendingModels s.1 = true → hasPendingModels s'.1 = true.
Proof.
  destruct op as [subModel attrs passIdx implant | | |]; cbn [exec];
    intros Hex Hop Hflag; [| | done |].
  - destruct (merge _ _ _ _ _ _) as [this' |] eqn:Hm; [| done].
    injection Hex as <-. cbn.
    by destruct (merge_pending _ _ _ _ _ _ _ Hm) as [| ->].
  - injection Hex as <-. by rewrite uploadBuffers_unfold.
  - by injection Hex as <-.
Qed.

Lemma run_pending env s ops :
  inv s.1 → Forall (λ op, op ≠ OpClear) ops → hasPendingModels s.1 = true →
  ∃ s', run env s ops = Normal s' ∧ inv s'.1 ∧ hasPendingModels s'.1 = true.
Proof.
  intros Hinv Hops. revert s Hinv.
  induction Hops as [| op ops Hop Hops IH]; intros s Hinv Hflag.
  - by exists s.
  - destruct (exec_total env s op Hinv) as (s1 & Hs1 & Hinv1).
    destruct (IH s1 Hinv1 (exec_pending _ _ _ _ Hs1 Hop Hflag)) as (s' & ? & ? & ?).
    exists s'. cbn [run]. by rewrite Hs1.
Qed.

(** C10: [destroy] empties the group list and leaves [hasPendingModels]
    and [dynamicOffsets] as they are; after a merge that appended a
    payload and any calls but [clear], the flag is still true after
    [destroy], with no group left; and no call but [clear] turns a true
    flag to false. *)
Theorem destroy_keeps_pending env :
  (∀ this,
     hasPendingModels (destroy this) = hasPendingModels this
     ∧ dynamicOffsets (destroy this) = dynamicOffsets this
     ∧ instances (destroy this) = [])
  ∧ (∀ this cmdBuff subModel attrs passIdx implant ops,
       inv this → is_Some (lands env this subModel attrs) →
       Forall (λ op, op ≠ OpClear) ops →
       ∃ s', run env (this, cmdBuff)
               (OpMerge subModel attrs passIdx implant :: ops ++ [OpDestroy])
             = Normal s'
             ∧ hasPendingModels s'.1 = true ∧ instances s'.1 = [])
  ∧ (∀ s op s',
       exec env s op = Normal s' → op ≠ OpClear →
       hasPendingModels s.1 = true → hasPendingModels s'.1 = true).
Proof.
  split; [done |]. split; [| apply exec_pending].
  intros this cmdBuff subModel attrs passIdx implant ops Hinv [i Hi] Hops.
  destruct (merge_total env this subModel attrs passIdx implant Hinv)
    as (this1 & Hm & Hmerged).
  assert (Hflag : hasPendingModels this1 = true).
  { destruct Hmerged; [congruence | done | done]. }
  destruct (run_pending env (this1, cmdBuff) ops) as (s2 & Hrun & _ & Hflag2);
    [by eapply merged_inv | done | done |].
  exists (destroy s2.1, s2.2).
  cbn [run exec fst snd]. rewrite Hm.
  cbn [mbind mret Completion_bind Completion_ret snd].
  rewrite run_app, Hrun. done.
Qed.

(** The sample frame is dirty, and stays so when destroyed. *)
Example destroy_sample :
  hasPendingModels Sample.frame = true
  ∧ hasPendingModels (destroy Sample.frame) = true
  ∧ instances (destroy Sample.frame) = [].
Proof. by vm_compute. Qed.

(** ** What one [merge] does *)

(** C7: a merge that appends to the group at index [i] (an existing group
    or the new one) leaves that group with the shader and descriptor-set
    handles of the submission, whatever the group held before, and leaves
    the groups at the other indices as they were. *)
Theorem merge_last_writer_wins env this subModel attrs passIdx implant i :
  inv this →
  lands env this subModel attrs = Some i →
  ∃ this' g',
    merge env this subModel attrs passIdx implant = Normal this'
    ∧ instances this' !! i = Some g'
    ∧ hShader g' = sub_hShader env subModel passIdx
    ∧ hDescriptorSet g' = sub_hDescriptorSet env subModel
    ∧ ∀ j, j ≠ i → instances this' !! j = instances this !! j.
Proof.
  intros Hinv Hi.
  destruct (merge_total env this subModel attrs passIdx implant Hinv)
    as (this' & Hm & Hmerged).
  exists this'.
  destruct Hmerged as [Hl | j g g' device' Hl Hfit _ Happ _ | g' device' Hl _ Hnew];
    [congruence | |]; rewrite Hi in Hl; injection Hl as ->; exists g';
    (split; [done |]); cbn [instances].
  - apply list_find_Some in Hfit as (Hj & _ & _).
    rewrite list_lookup_insert_eq by (by eapply lookup_lt_Some).
    destruct Happ. repeat split; try done.
    intros k Hk. by rewrite list_lookup_insert_ne.
  - rewrite lookup_app_r, Nat.sub_diag by lia.
    destruct Hnew. repeat split; try done.
    intros k Hk. destruct (decide (k < length (instances this))%nat).
    + by rewrite lookup_app_l.
    + rewrite !lookup_ge_None_2; [done | lia |].
      rewrite length_app. cbn. lia.
Qed.

Lemma merge_last_writer_wins_witness :
  inv Sample.frame
  ∧ lands Sample.env Sample.frame (Sample.subModel 3 JSUndefined 7)
      (Sample.block Byte.x07 4) = Some 0%nat
  ∧ ∃ this' g',
      merge Sample.env Sample.frame (Sample.subModel 3 JSUndefined 7)
        (Sample.block Byte.x07 4) 0 None = Normal this'
      ∧ instances this' !! 0%nat = Some g'
      ∧ hShader g' = sub_hShader Sample.env (Sample.subModel 3 JSUndefined 7) 0
      ∧ hDescriptorSet g'
        = sub_hDescriptorSet Sample.env (Sample.subModel 3 JSUndefined 7)
      ∧ ∀ j, j ≠ 0%nat → instances this' !! j = instances Sample.frame !! j.
Proof.
  assert (H : inv Sample.frame) by (apply inv_check_sound; vm_compute; reflexivity).
  assert (L : lands Sample.env Sample.frame (Sample.subModel 3 JSUndefined 7)
                (Sample.block Byte.x07 4) = Some 0%nat) by (vm_compute; reflexivity).
  split; [exact H |]. split; [exact L |].
  exact (merge_last_writer_wins Sample.env Sample.frame
           (Sample.subModel 3 JSUndefined 7) (Sample.block Byte.x07 4) 0 None 0%nat H L).
Defined.

(** The group held the handles 305 and 309 of the third submission and
    holds 705 and 709 after the merge. *)
Example last_writer_sample :
  (λ g, (hShader g, hDescriptorSet g)) <$> instances Sample.frame !! 0%nat
  = Some (305, 309)
  ∧ (λ g, (hShader g, hDescriptorSet g)) <$>
      instances (Sample.after [Sample.mergeOp 3 1 Byte.x01 4;
                               Sample.mergeOp 3 2 Byte.x02 4;
                               Sample.mergeOp 3 3 Byte.x03 4;
                               Sample.mergeOp 4 4 Byte.x04 2;
                               Sample.mergeOp 3 7 Byte.x07 4]) !! 0%nat
    = Some (705, 709).
Proof. by vm_compute. Qed.

(** C4: on an aggregator whose groups satisfy the invariant, [merge]
    returns without an exception. When the payload is empty, or the first
    group with the index buffer of the submission, a count below 1024 and
    its texture has another stride, the aggregator is unchanged. In every
    other case it is changed: the payload is in the next free slot of one
    group (an existing one or a new one at the end), whose count went up by
    one, the other groups are as they were, and the dirty flag is set. *)
Theorem merge_noop_iff env this subModel attrs passIdx implant :
  inv this →
  ∃ this',
    merge env this subModel attrs passIdx implant = Normal this'
    ∧ (this' = this ↔ dropped env this subModel attrs)
    ∧ (this' = this
       ∨ ∃ i g',
           instances this' !! i = Some g'
           ∧ count g' = default 0 (count <$> instances this !! i) + 1
           ∧ stride g' = sub_stride attrs
           ∧ slot (data g') (stride g') (Z.to_nat (count g' - 1)) = buffer attrs
           ∧ hasPendingModels this' = true
           ∧ ∀ j, j ≠ i → instances this' !! j = instances this !! j).
Proof.
  intros Hinv.
  destruct (merge_total env this subModel attrs passIdx implant Hinv)
    as (this' & Hm & Hmerged).
  exists this'. split; [done |].
  destruct Hmerged as [Hl | j g g' device' Hl Hfit Hs Happ _ | g' device' Hl Hfit Hnew].
  - split; [| by left]. split; [intros _ | done].
    unfold dropped, lands, sub_stride in *.
    destruct (Z.eqb_spec (Z.of_nat (length (buffer attrs))) 0); [left; lia | right].
    destruct (first_fit _ _ _) as [[j g] |]; [| done].
    exists j, g. split; [done |].
    by destruct (Z.eqb_spec (stride g) (Z.of_nat (length (buffer attrs)))).
  - pose proof Hfit as Hfit'.
    apply list_find_Some in Hfit' as (Hj & _ & _).
    assert (Hlt : (j < length (instances this))%nat) by by eapply lookup_lt_Some.
    destruct Happ as [Hc Hst _ _ _ _ _ _ _ Hnew _].
    split.
    + split.
      * intros Heq. apply (f_equal (λ t, instances t !! j)) in Heq.
        cbn in Heq. rewrite list_lookup_insert_eq, Hj in Heq by done.
        injection Heq as ->. lia.
      * intros [H0 | (j' & g0 & Hfit0 & Hne)].
        -- unfold lands, sub_stride in Hl. rewrite H0 in Hl. done.
        -- congruence.
    + right. exists j, g'. cbn [instances hasPendingModels].
      rewrite list_lookup_insert_eq, Hj by done. cbn.
      repeat split; try done; try congruence.
      * rewrite Hst, Hc. replace (count g + 1 - 1) with (count g) by lia. done.
      * intros k Hk. by rewrite list_lookup_insert_ne.
  - destruct Hnew as [Hc _ Hst _ _ _ _ _ Hdata _].
    split.
    + split.
      * intros Heq. apply (f_equal (λ t, length (instances t))) in Heq.
        cbn in Heq. rewrite length_app in Heq. cbn in Heq. lia.
      * intros [H0 | (j' & g0 & Hfit0 & Hne)].
        -- unfold lands, sub_stride in Hl. rewrite H0 in Hl. done.
        -- congruence.
    + right. exists (length (instances this)), g'. cbn [instances hasPendingModels].
      rewrite lookup_app_r, Nat.sub_diag by lia.
      rewrite (lookup_ge_None_2 (instances this)) by lia. cbn.
      repeat split; try done.
      * rewrite Hst, Hc, Hdata. unfold slot.
        change (Z.to_nat (1 - 1)) with 0%nat.
        rewrite Nat.mul_0_l, drop_0, Nat2Z.id. apply take_app_length.
      * intros k Hk. destruct (decide (k < length (instances this))%nat).
        -- by rewrite lookup_app_l.
        -- rewrite !lookup_ge_None_2; [done | lia |].
           rewrite length_app. cbn. lia.
Qed.

Lemma merge_noop_iff_witness :
  inv Sample.frame
  ∧ ∃ this',
      merge Sample.env Sample.frame (Sample.subModel 3 JSUndefined 8)
        (Sample.block Byte.x08 6) 0 None = Normal this'
      ∧ (this' = Sample.frame
         ↔ dropped Sample.env Sample.frame (Sample.subModel 3 JSUndefined 8)
             (Sample.block Byte.x08 6))
      ∧ (this' = Sample.frame
         ∨ ∃ i g',
             instances this' !! i = Some g'
             ∧ count g' = default 0 (count <$> instances Sample.frame !! i) + 1
             ∧ stride g' = sub_stride (Sample.block Byte.x08 6)
             ∧ slot (data g') (stride g') (Z.to_nat (count g' - 1))
               = buffer (Sample.block Byte.x08 6)
             ∧ hasPendingModels this' = true
             ∧ ∀ j, j ≠ i → instances this' !! j = instances Sample.frame !! j).
Proof.
  assert (H : inv Sample.frame) by (apply inv_check_sound; vm_compute; reflexivity).
  split; [exact H |].
  exact (merge_noop_iff Sample.env Sample.frame (Sample.subModel 3 JSUndefined 8)
           (Sample.block Byte.x08 6) 0 None H).
Defined.

(** A payload of six bytes for the geometry whose group holds four-byte
    payloads is dropped, an empty payload too; a four-byte one is not. *)
Example merge_noop_sample :
  merge Sample.env Sample.frame (Sample.subModel 3 JSUndefined 8)
    (Sample.block Byte.x08 6) 0 None = Normal Sample.frame
  ∧ merge Sample.env Sample.frame (Sample.subModel 3 JSUndefined 8)
      (Sample.block Byte.x08 0) 0 None = Normal Sample.frame
  ∧ (λ t, map count (instances t)) <$>
      merge Sample.env Sample.frame (Sample.subModel 3 JSUndefined 8)
        (Sample.block Byte.x08 4) 0 None = Normal [4; 1].
Proof. by vm_compute. Qed.

(** ** Byte placement *)

Lemma holds_appended g payloads payload h d g' :
  holds g payloads → appended g payload h d g' →
  holds g' (payloads ++ [payload]).
Proof.
  intros [Hc Hslots] [Hc' Hst _ _ _ _ _ _ Hold Hnew _]. split.
  - rewrite length_app. cbn. lia.
  - intros i p Hi. rewrite Hst.
    assert (Hn : Z.to_nat (count g) = length payloads) by lia.
    rewrite Hn in *.
    apply lookup_app_Some in Hi as [Hi | [Hge Hi]].
    + rewrite (slot_prefix (data g) (data g') (stride g) (length payloads)).
      * by apply Hslots.
      * done.
      * by eapply lookup_lt_Some.
    + apply list_lookup_singleton_Some in Hi as [Hi <-].
      by replace i with (length payloads) by lia.
Qed.

Lemma holds_created device sourceIA tex payload h d g' :
  created device sourceIA tex payload h d g' → holds g' [payload].
Proof.
  intros [Hc _ Hst _ _ _ _ _ Hdata _]. split; [by rewrite Hc |].
  intros i p Hi. apply list_lookup_singleton_Some in Hi as [-> <-].
  rewrite Hst, Hdata. unfold slot.
  rewrite Nat.mul_0_l, drop_0, Nat2Z.id. apply take_app_length.
Qed.

Lemma record_step env s op s' sofar :
  inv s.1 → Forall2 holds (instances s.1) sofar →
  exec env s op = Normal s' →
  Forall2 holds (instances s'.1) (record env s.1 op sofar).
Proof.
  intros Hinv Hholds Hex.
  destruct op as [subModel attrs passIdx implant | | |]; cbn [exec record] in *.
  - destruct (merge_total env s.1 subModel attrs passIdx implant Hinv)
      as (this' & Hm & Hmerged).
    rewrite Hm in Hex. injection Hex as <-. cbn [fst].
    destruct Hmerged as [-> | j g g' device' -> Hfit _ Happ _ | g' device' -> _ Hnew];
      cbn [instances]; [done | |].
    + apply list_find_Some in Hfit as (Hj & _ & _).
      pose proof Hholds as Hlen; apply Forall2_length in Hlen.
      apply lookup_lt_Some in Hj as Hlt.
      rewrite decide_True by lia.
      rewrite list_insert_alter. apply Forall2_alter; [done |].
      intros x payloads Hx _ Hxp. assert (x = g) as -> by congruence.
      by eapply holds_appended.
    + pose proof Hholds as Hlen; apply Forall2_length in Hlen.
      rewrite decide_False by lia.
      apply Forall2_app; [done |].
      constructor; [| constructor]. by eapply holds_created.
  - injection Hex as <-. rewrite uploadBuffers_unfold. cbn.
    apply Forall2_fmap_l. eapply Forall2_impl; [exact Hholds |].
    intros g payloads Hg. cbn. by destruct (count g =? 0).
  - injection Hex as <-. cbn. apply Forall2_fmap.
    eapply Forall2_impl; [exact Hholds |]. intros g payloads _.
    split; [done |]. intros i p Hi. by rewrite lookup_nil in Hi.
  - injection Hex as <-. cbn. constructor.
Qed.

Lemma received_run env s ops sofar :
  inv s.1 → Forall2 holds (instances s.1) sofar →
  ∃ s', run env s ops = Normal s' ∧ inv s'.1
        ∧ Forall2 holds (instances s'.1) (received env s ops sofar).
Proof.
  revert s sofar. induction ops as [| op ops IH]; intros s sofar Hinv Hholds.
  - by exists s.
  - destruct (exec_total env s op Hinv) as (s1 & Hs1 & Hinv1).
    destruct (IH s1 (record env s.1 op sofar) Hinv1) as (s' & Hrun & Hinv' & Hh).
    { by eapply record_step. }
    exists s'. cbn [run received]. by rewrite Hs1.
Qed.

(** One merge into an existing group: the slots already written keep
    their bytes, also when the group grows, and the payload is in the next
    slot. *)
Lemma merge_places env this subModel attrs passIdx implant i g :
  inv this → lands env this subModel attrs = Some i →
  instances this !! i = Some g →
  ∃ this' g',
    merge env this subModel attrs passIdx implant = Normal this'
    ∧ instances this' !! i = Some g'
    ∧ count g' = count g + 1 ∧ stride g' = stride g
    ∧ capacity g' = (if capacity g <=? count g then 2 * capacity g else capacity g)
    ∧ Z.of_nat (length (data g')) = stride g * capacity g'
    ∧ (∀ k, (k < Z.to_nat (count g))%nat →
            slot (data g') (stride g) k = slot (data g) (stride g) k)
    ∧ slot (data g') (stride g) (Z.to_nat (count g)) = buffer attrs.
Proof.
  intros Hinv Hl Hi.
  destruct (merge_total env this subModel attrs passIdx implant Hinv)
    as (this' & Hm & Hmerged).
  exists this'.
  destruct Hmerged as [Hl' | j g0 g' device' Hl' Hfit _ Happ _ | g' device' Hl' _ _];
    [congruence | |].
  - rewrite Hl in Hl'. injection Hl' as <-.
    apply list_find_Some in Hfit as (Hj & _ & _).
    assert (g0 = g) as -> by congruence.
    exists g'. cbn [instances].
    rewrite list_lookup_insert_eq by (by eapply lookup_lt_Some).
    destruct Happ as [Hc Hst Hcap _ _ _ _ _ Hold Hnew [_ _ _ _ Hlen]].
    repeat split; try done.
    + by rewrite <- Hst.
    + intros k Hk. by eapply slot_prefix.
  - rewrite Hl in Hl'. injection Hl' as ->. apply lookup_lt_Some in Hi. lia.
Qed.

(** C1: one merge that lands in an existing group leaves the slots
    already written as they were, also when the group grows (the capacity
    doubles and [data.length = stride * capacity] again), and puts the
    payload in the next slot, at offset [stride * count]. Hence, after any
    sequence of calls on a new aggregator, every group holds, slot by slot,
    the payloads merged into it since it was last emptied: [count] is their
    number, at most 1024, and for every [i < count] the bytes
    [data[i*stride .. (i+1)*stride)] are the [i]-th of them. *)
Theorem byte_placement env :
  (∀ this subModel attrs passIdx implant i g,
     inv this → lands env this subModel attrs = Some i →
     instances this !! i = Some g →
     ∃ this' g',
       merge env this subModel attrs passIdx implant = Normal this'
       ∧ instances this' !! i = Some g'
       ∧ count g' = count g + 1 ∧ stride g' = stride g
       ∧ capacity g' = (if capacity g <=? count g then 2 * capacity g else capacity g)
       ∧ Z.of_nat (length (data g')) = stride g * capacity g'
       ∧ (∀ k, (k < Z.to_nat (count g))%nat →
               slot (data g') (stride g) k = slot (data g) (stride g) k)
       ∧ slot (data g') (stride g) (Z.to_nat (count g)) = buffer attrs)
  ∧ (∀ pass cmdBuff ops,
       ∃ s',
         run env (new_InstancedBuffer pass, cmdBuff) ops = Normal s'
         ∧ Forall2
             (λ g payloads,
                count g = Z.of_nat (length payloads)
                ∧ count g ≤ MAX_CAPACITY
                ∧ ∀ i payload, payloads !! i = Some payload →
                               slot (data g) (stride g) i = payload)
             (instances s'.1)
             (received env (new_InstancedBuffer pass, cmdBuff) ops [])).
Proof.
  split; [intros; by eapply merge_places |].
  intros pass cmdBuff ops.
  destruct (received_run env (new_InstancedBuffer pass, cmdBuff) ops [])
    as (s' & Hrun & Hinv & Hholds); [constructor | constructor |].
  exists s'. split; [done |].
  apply Forall2_same_length_lookup. split; [by eapply Forall2_length |].
  intros i g payloads Hg Hp.
  destruct (Forall2_lookup_lr _ _ _ _ _ _ Hholds Hg Hp) as [Hc Hslots].
  split; [done |]. split; [| done].
  destruct (Forall_lookup_1 _ _ _ _ Hinv Hg). lia.
Qed.

(** The 33 scenario with stride 8: the group grows to capacity 64 and 512
    bytes at the 33rd merge, the 32 entries of the buffer before the growth
    are its first 256 bytes, the 33rd entry is at offset 256, and the
    payloads received are the 33 payloads in order. *)
Example byte_placement_sample :
  map (λ g, (count g, capacity g, length (data g)))
    (instances (Sample.after (Sample.numbered 32)))
  = [(32, 32, 256%nat)]
  ∧ map (λ g, (count g, capacity g, length (data g)))
      (instances (Sample.after (Sample.numbered 33)))
    = [(33, 64, 512%nat)]
  ∧ map (λ g, take 256 (data g)) (instances (Sample.after (Sample.numbered 33)))
    = map data (instances (Sample.after (Sample.numbered 32)))
  ∧ map (λ g, take 8 (drop 256 (data g)))
      (instances (Sample.after (Sample.numbered 33)))
    = [replicate 8 Byte.x20]
  ∧ map (λ g, map (slot (data g) (stride g)) (seq 0 33))
      (instances (Sample.after (Sample.numbered 33)))
    = received Sample.env (new_InstancedBuffer Sample.pass, [])
        (Sample.numbered 33) [].
Proof. vm_compute. repeat split; reflexivity. Qed.

(** ** Compatibility partitioning *)

Lemma lands_first_fit env this subModel attrs j g :
  first_fit (sub_indexBuffer subModel) (sub_lightingMap env subModel)
    (instances this) = Some (j, g) →
  sub_stride attrs ≠ 0 → stride g = sub_stride attrs →
  lands env this subModel attrs = Some j.
Proof.
  intros Hfit H0 Hs. unfold lands. rewrite Hfit.
  rewrite (proj2 (Z.eqb_neq _ _) H0). by rewrite (proj2 (Z.eqb_eq _ _) Hs).
Qed.

(** Landing in an existing group means fitting it, with its stride. *)
Lemma lands_existing env this subModel attrs i g :
  lands env this subModel attrs = Some i →
  instances this !! i = Some g →
  first_fit (sub_indexBuffer subModel) (sub_lightingMap env subModel)
    (instances this) = Some (i, g)
  ∧ group_key g = sub_key env subModel attrs ∧ count g < MAX_CAPACITY.
Proof.
  unfold lands. intros Hl Hi.
  destruct (sub_stride attrs =? 0); [done |].
  destruct (first_fit _ _ _) as [[j g0] |] eqn:Hfit.
  - destruct (Z.eqb_spec (stride g0) (sub_stride attrs)) as [Hs |]; [| done].
    injection Hl as ->.
    apply list_find_Some in Hfit as (Hj & (Hib & Hc & Htex) & _).
    assert (g0 = g) as -> by congruence.
    unfold group_key, sub_key. by rewrite Hib, Htex, Hs.
  - injection Hl as <-. apply lookup_lt_Some in Hi. lia.
Qed.

Lemma run_frame env ops s s' i g :
  inv s.1 → run env s ops = Normal s' → Forall not_destroy ops →
  instances s.1 !! i = Some g →
  ∃ g', instances s'.1 !! i = Some g' ∧ group_key g' = group_key g
        ∧ (Forall within_frame ops → count g ≤ count g').
Proof.
  revert s g. induction ops as [| op ops IH]; intros s g Hinv Hrun Hops Hi.
  - injection Hrun as <-. exists g. split; [done |]. split; [done | lia].
  - cbn [run] in Hrun. apply Forall_cons in Hops as [Hop Hops].
    destruct (exec_total env s op Hinv) as (s1 & Hs1 & Hinv1).
    rewrite Hs1 in Hrun. cbn in Hrun.
    destruct (exec_frame env s op s1 i g Hinv Hs1 Hop Hi) as (g1 & Hg1 & Hk1 & Hc1).
    destruct (IH s1 g1 Hinv1 Hrun Hops Hg1) as (g' & Hg' & Hk' & Hc').
    exists g'. split; [done |]. split; [congruence |].
    intros Hin. apply Forall_cons in Hin as [[Hnc _] Hin].
    specialize (Hc1 Hnc). specialize (Hc' Hin). lia.
Qed.

(** The state after a merge that landed at index [i]: the group there has
    the key of the submission, and no group before it fits. *)
Lemma merged_landed env this subModel attrs passIdx this' i :
  merged env this subModel attrs passIdx this' →
  lands env this subModel attrs = Some i →
  (∃ g', instances this' !! i = Some g'
         ∧ group_key g' = sub_key env subModel attrs)
  ∧ ∀ k g0, (k < i)%nat → instances this' !! k = Some g0 →
            ¬ fits (sub_indexBuffer subModel) (sub_lightingMap env subModel) g0.
Proof.
  intros [Hl | j g g' device' Hl Hfit Hs Happ _ | g' device' Hl Hfit Hnew] Hi;
    [congruence | |]; rewrite Hi in Hl; injection Hl as ->; cbn [instances].
  - apply list_find_Some in Hfit as (Hj & (Hib & _ & Htex) & Hbefore).
    apply lookup_lt_Some in Hj as Hlt. split.
    + exists g'. rewrite list_lookup_insert_eq by done. split; [done |].
      destruct Happ as [_ Hst _ Hia Hlm _ _ _ _ _ _].
      unfold group_key, sub_key. by rewrite Hia, Hlm, Hst, Hib, Htex, Hs.
    + intros k g0 Hk Hg0. rewrite list_lookup_insert_ne in Hg0 by lia.
      by eapply Hbefore.
  - split.
    + exists g'. rewrite lookup_app_r, Nat.sub_diag by lia. split; [done |].
      destruct Hnew as [_ _ Hst Hib Hlm _ _ _ _ _].
      unfold group_key, sub_key, sub_indexBuffer, sub_stride. by rewrite Hib, Hlm, Hst.
    + intros k g0 Hk Hg0. rewrite lookup_app_l in Hg0 by done.
      unfold first_fit in Hfit. rewrite list_find_None in Hfit.
      rewrite Forall_lookup in Hfit. by eapply Hfit.
Qed.

(** Groups that do not fit a key still do not fit it after calls of
    [merge] and [uploadBuffers]. *)
Lemma run_unfit env ops s s' ib tex i :
  inv s.1 → run env s ops = Normal s' → Forall within_frame ops →
  (i ≤ length (instances s.1))%nat →
  (∀ k g0, (k < i)%nat → instances s.1 !! k = Some g0 → ¬ fits ib tex g0) →
  ∀ k g0, (k < i)%nat → instances s'.1 !! k = Some g0 → ¬ fits ib tex g0.
Proof.
  intros Hinv Hrun Hops Hi Hunfit k g' Hk Hg' (Hib & Hc & Htex).
  destruct (lookup_lt_is_Some_2 (instances s.1) k) as [g Hg]; [lia |].
  destruct (run_frame env ops s s' k g Hinv Hrun) as (g1 & Hg1 & Hkey & Hcount);
    [| done |].
  { eapply List.Forall_impl; [| exact Hops]. by intros op []. }
  assert (g1 = g') as -> by congruence.
  specialize (Hcount Hops). unfold group_key in Hkey.
  apply (Hunfit k g Hk Hg). unfold fits.
  injection Hkey as Hk1 Hk2 Hk3. split; [congruence |]. split; [lia | congruence].
Qed.

Lemma partition_separates env this cmdBuff subA attrsA passA implantA ops s'
    subB attrsB i :
  inv this →
  lands env this subA attrsA = Some i →
  run env (this, cmdBuff) (OpMerge subA attrsA passA implantA :: ops) = Normal s' →
  Forall not_destroy ops →
  lands env s'.1 subB attrsB = Some i →
  sub_key env subB attrsB = sub_key env subA attrsA.
Proof.
  intros Hinv HA Hrun Hops HB. cbn [run exec fst snd] in Hrun.
  destruct (merge_total env this subA attrsA passA implantA Hinv)
    as (this1 & Hm & Hmerged).
  rewrite Hm in Hrun. cbn in Hrun.
  destruct (merged_landed _ _ _ _ _ _ _ Hmerged HA) as [(g1 & Hg1 & Hk1) _].
  destruct (run_frame env ops (this1, cmdBuff) s' i g1) as (g2 & Hg2 & Hk2 & _);
    [by eapply merged_inv | done | done | done |].
  destruct (lands_existing env s'.1 subB attrsB i g2 HB Hg2) as (_ & Hk & _).
  congruence.
Qed.

(** The group a submission landed in stays the first fit of its index
    buffer and texture while it has room, through merges and uploads. *)
Lemma landed_first_fit env this cmdBuff subA attrsA passA implantA ops s' i g :
  inv this →
  lands env this subA attrsA = Some i →
  run env (this, cmdBuff) (OpMerge subA attrsA passA implantA :: ops) = Normal s' →
  Forall within_frame ops →
  instances s'.1 !! i = Some g → count g < MAX_CAPACITY →
  first_fit (sub_indexBuffer subA) (sub_lightingMap env subA) (instances s'.1)
  = Some (i, g)
  ∧ stride g = sub_stride attrsA ∧ sub_stride attrsA ≠ 0.
Proof.
  intros Hinv HA Hrun Hops Hg Hc. cbn [run exec fst snd] in Hrun.
  destruct (merge_total env this subA attrsA passA implantA Hinv)
    as (this1 & Hm & Hmerged).
  rewrite Hm in Hrun. cbn in Hrun.
  destruct (merged_landed _ _ _ _ _ _ _ Hmerged HA) as [(g1 & Hg1 & Hk1) Hunfit].
  assert (Hinv1 : inv this1) by by eapply merged_inv.
  destruct (run_frame env ops (this1, cmdBuff) s' i g1) as (g2 & Hg2 & Hk2 & _);
    [done | done | | done |].
  { eapply List.Forall_impl; [| exact Hops]. by intros op []. }
  assert (g2 = g) as -> by congruence.
  assert (HkA : group_key g = sub_key env subA attrsA) by congruence.
  unfold group_key, sub_key in HkA. injection HkA as Hib Htex Hs.
  split; [| split; [done |]].
  - unfold first_fit. apply list_find_Some. split; [done |]. split; [done |].
    intros k g0 Hg0 Hk.
    eapply (run_unfit env ops (this1, cmdBuff) s' _ _ i); try done.
    cbn. apply lookup_lt_Some in Hg1. lia.
  - unfold lands in HA. intros H0. by rewrite H0 in HA.
Qed.

Lemma partition_joins env this cmdBuff subA attrsA passA implantA ops s'
    subB attrsB i g :
  inv this →
  lands env this subA attrsA = Some i →
  run env (this, cmdBuff) (OpMerge subA attrsA passA implantA :: ops) = Normal s' →
  Forall within_frame ops →
  sub_key env subB attrsB = sub_key env subA attrsA →
  instances s'.1 !! i = Some g → count g < MAX_CAPACITY →
  lands env s'.1 subB attrsB = Some i.
Proof.
  intros Hinv HA Hrun Hops Hkey Hg Hc.
  destruct (landed_first_fit env this cmdBuff subA attrsA passA implantA ops s' i g)
    as (Hfit & Hs & H0); try done.
  unfold sub_key in Hkey. injection Hkey as Hib Htex Hst.
  apply (lands_first_fit env s'.1 subB attrsB i g); congruence.
Qed.

(** A submission with the index buffer and texture of an earlier one and
    another stride is dropped while the group of the earlier one has
    room. *)
Lemma partition_drops env this cmdBuff subA attrsA passA implantA ops s'
    subB attrsB passB implantB i g :
  inv this →
  lands env this subA attrsA = Some i →
  run env (this, cmdBuff) (OpMerge subA attrsA passA implantA :: ops) = Normal s' →
  Forall within_frame ops →
  sub_indexBuffer subB = sub_indexBuffer subA →
  sub_lightingMap env subB = sub_lightingMap env subA →
  sub_stride attrsB ≠ sub_stride attrsA →
  instances s'.1 !! i = Some g → count g < MAX_CAPACITY →
  merge env s'.1 subB attrsB passB implantB = Normal s'.1.
Proof.
  intros Hinv HA Hrun Hops Hib Htex Hst Hg Hc.
  destruct (landed_first_fit env this cmdBuff subA attrsA passA implantA ops s' i g)
    as (Hfit & Hs & H0); try done.
  destruct (decide (sub_stride attrsB = 0)) as [HB | HB]; [by apply merge_skip |].
  eapply merge_abort; [done | by rewrite Hib, Htex | congruence].
Qed.

(** Compatible merges fill the first fitting group of their key as long
    as it has room, and touch no other group. *)
Lemma fill env ib tex st ops :
  ∀ s j g,
    inv s.1 → Forall (compatible env (ib, tex, st)) ops → st ≠ 0 →
    instances s.1 !! j = Some g → group_key g = (ib, tex, st) →
    (∀ k g0, (k < j)%nat → instances s.1 !! k = Some g0 → ¬ fits ib tex g0) →
    count g + Z.of_nat (length ops) ≤ MAX_CAPACITY →
    ∃ s' g',
      run env s ops = Normal s' ∧ inv s'.1
      ∧ instances s'.1 !! j = Some g'
      ∧ count g' = count g + Z.of_nat (length ops)
      ∧ group_key g' = (ib, tex, st)
      ∧ length (instances s'.1) = length (instances s.1)
      ∧ ∀ k, k ≠ j → instances s'.1 !! k = instances s.1 !! k.
Proof.
  induction ops as [| op ops IH]; intros s j g Hinv Hops Hst Hj Hkey Hunfit Hroom.
  { exists s, g. cbn. repeat split; try done. lia. }
  apply Forall_cons in Hops as [Hop Hops].
  destruct op as [subModel attrs passIdx implant | | |]; try done.
  cbn [compatible] in Hop. unfold sub_key in Hop. injection Hop as Hib Htex Hs.
  cbn [length] in Hroom. rewrite Nat2Z.inj_succ in Hroom.
  unfold group_key in Hkey. injection Hkey as Hgib Hgtex Hgs.
  assert (Hfit : first_fit (sub_indexBuffer subModel) (sub_lightingMap env subModel)
                   (instances s.1) = Some (j, g)).
  { unfold first_fit. apply list_find_Some. rewrite Hib, Htex.
    split; [done |]. split; [| intros k g0 Hg0 Hk; by eapply Hunfit].
    split; [done |]. split; [| done]. unfold MAX_CAPACITY in *. lia. }
  assert (Hl : lands env s.1 subModel attrs = Some j).
  { eapply lands_first_fit; [done | |]; congruence. }
  destruct (merge_total env s.1 subModel attrs passIdx implant Hinv)
    as (this1 & Hm & Hmerged).
  pose proof (merged_inv _ _ _ _ _ _ Hmerged Hinv) as Hinv1.
  destruct Hmerged as [Hl' | j' g0 g1 device' _ Hfit' _ Happ _ | g1 device' _ Hfit' _];
    [congruence | | congruence].
  rewrite Hfit in Hfit'. injection Hfit' as <- <-.
  apply lookup_lt_Some in Hj as Hlt.
  destruct Happ as [Hc1 Hst1 _ Hia1 Hlm1 _ _ _ _ _ _].
  set (this1 := {| instances := <[j := g1]> (instances s.1) |}) in *.
  destruct (IH (this1, s.2) j g1) as (s' & g' & Hrun & Hinv' & Hg' & Hc' & Hk' & Hlen & Hrest);
    try done.
  - cbn. by rewrite list_lookup_insert_eq.
  - unfold group_key. by rewrite Hia1, Hlm1, Hst1, Hgib, Hgtex, Hgs.
  - cbn. intros k g2 Hk Hg2. rewrite list_lookup_insert_ne in Hg2 by lia.
    by eapply Hunfit.
  - lia.
  - exists s', g'. cbn [run exec]. rewrite Hm. cbn [mbind mret Completion_bind Completion_ret].
    split; [done |]. split; [done |]. split; [done |]. split.
    { cbn [length]. lia. }
    split; [done |]. split.
    { rewrite Hlen. cbn. by rewrite length_insert. }
    intros k Hk. rewrite Hrest by done. cbn. by rewrite list_lookup_insert_ne.
Qed.

(** The 1025 scenario: compatible submissions with a non-empty payload on
    a new aggregator. *)
Lemma overflow env pass cmdBuff ib tex st ops :
  st ≠ 0 → Forall (compatible env (ib, tex, st)) ops → length ops = 1025%nat →
  ∃ s' g1 g2,
    run env (new_InstancedBuffer pass, cmdBuff) ops = Normal s'
    ∧ instances s'.1 = [g1; g2]
    ∧ count g1 = 1024 ∧ capacity g1 = 1024 ∧ count g2 = 1.
Proof.
  intros Hst Hops Hlen.
  destruct ops as [| op1 rest]; [done |].
  apply Forall_cons in Hops as [Hop1 Hrest].
  assert (Hlen' : length rest = 1024%nat) by (cbn in Hlen; lia).
  rewrite <- (take_drop 1023 rest) in Hrest |- *.
  apply Forall_app in Hrest as [Hmid Hlast].
  assert (Hlmid : length (take 1023 rest) = 1023%nat) by (rewrite length_take; lia).
  assert (Hllast : length (drop 1023 rest) = 1%nat) by (rewrite length_drop; lia).
  destruct (drop 1023 rest) as [| last [| ? ?]]; try done.
  apply Forall_cons in Hlast as [Hlast _].
  generalize dependent (take 1023 rest). intros mid Hmid Hlmid. clear rest Hlen Hlen'.
  (* the first submission creates the group *)
  destruct op1 as [sub1 attrs1 pass1 implant1 | | |]; try done.
  cbn [compatible] in Hop1. unfold sub_key in Hop1. injection Hop1 as Hib1 Htex1 Hs1.
  destruct (merge_total env (new_InstancedBuffer pass) sub1 attrs1 pass1 implant1)
    as (this1 & Hm1 & Hmerged1); [constructor |].
  pose proof (merged_inv _ _ _ _ _ _ Hmerged1 ltac:(constructor)) as Hinv1.
  destruct Hmerged1 as [Hl | j g g' device' _ Hfit _ _ _ | g1 device1 _ _ Hnew1].
  { unfold lands in Hl. rewrite Hs1, (proj2 (Z.eqb_neq _ _) Hst) in Hl. done. }
  { done. }
  cbn [new_InstancedBuffer instances app] in *.
  set (this1 := {| instances := [g1] |}) in *.
  destruct Hnew1 as [Hc1 _ Hst1 Hib1' Hlm1 _ _ _ _ _].
  (* the next 1023 fill it *)
  destruct (fill env ib tex st mid (this1, cmdBuff) 0%nat g1)
    as (s2 & g2 & Hrun2 & Hinv2 & Hg2 & Hc2 & Hk2 & Hlen2 & _); try done.
  { unfold group_key. rewrite Hib1', Hlm1, Hst1.
    unfold sub_indexBuffer, sub_stride in *. congruence. }
  { intros k g0 Hk. lia. }
  { rewrite Hc1, Hlmid. unfold MAX_CAPACITY. lia. }
  rewrite Hc1, Hlmid in Hc2.
  assert (Hi2 : instances s2.1 = [g2]).
  { cbn in Hlen2. destruct (instances s2.1) as [| x [| ? ?]]; try done.
    cbn in Hg2. congruence. }
  (* the last one finds it full *)
  destruct last as [sub3 attrs3 pass3 implant3 | | |]; try done.
  cbn [compatible] in Hlast. unfold sub_key in Hlast. injection Hlast as Hib3 Htex3 Hs3.
  destruct (merge_total env s2.1 sub3 attrs3 pass3 implant3 Hinv2)
    as (this3 & Hm3 & Hmerged3).
  assert (Hnone : first_fit (sub_indexBuffer sub3) (sub_lightingMap env sub3)
                    (instances s2.1) = None).
  { rewrite Hi2. unfold first_fit. apply list_find_None, Forall_singleton.
    intros (_ & Hc & _). unfold MAX_CAPACITY in Hc. lia. }
  destruct Hmerged3 as [Hl | j g g' device' _ Hfit _ _ _ | g3 device3 _ _ Hnew3].
  { unfold lands in Hl. rewrite Hs3, (proj2 (Z.eqb_neq _ _) Hst), Hnone in Hl. done. }
  { congruence. }
  exists ({| instances := instances s2.1 ++ [g3]; hPass := hPass s2.1;
             hasPendingModels := true; dynamicOffsets := dynamicOffsets s2.1;
             _device := device3 |}, s2.2), g2, g3.
  split.
  { cbn [run exec fst snd]. rewrite Hm1.
    cbn [mbind mret Completion_bind Completion_ret]. rewrite run_app, Hrun2.
    cbn [mbind mret Completion_bind Completion_ret run exec]. by rewrite Hm3. }
  cbn [fst instances]. rewrite Hi2. split; [done |]. split; [lia |].
  split; [| apply Hnew3].
  unfold inv in Hinv2. rewrite Hi2 in Hinv2.
  apply Forall_cons in Hinv2 as [[] _]. unfold MAX_CAPACITY in *. lia.
Qed.

Lemma full_group_skipped env this subModel attrs i g :
  instances this !! i = Some g → MAX_CAPACITY ≤ count g →
  lands env this subModel attrs ≠ Some i.
Proof.
  intros Hi Hfull Hl.
  destruct (lands_existing env this subModel attrs i g Hl Hi) as (_ & _ & Hc). lia.
Qed.

(** A merge adds a group exactly when the payload is not empty and no
    group fits. *)
Lemma merge_creates_iff env this subModel attrs passIdx implant :
  inv this →
  ∃ this',
    merge env this subModel attrs passIdx implant = Normal this'
    ∧ ((sub_stride attrs ≠ 0
        ∧ first_fit (sub_indexBuffer subModel) (sub_lightingMap env subModel)
            (instances this) = None
        ∧ length (instances this') = S (length (instances this)))
       ∨ ((sub_stride attrs = 0
           ∨ is_Some (first_fit (sub_indexBuffer subModel)
                        (sub_lightingMap env subModel) (instances this)))
          ∧ length (instances this') = length (instances this))).
Proof.
  intros Hinv.
  destruct (merge_total env this subModel attrs passIdx implant Hinv)
    as (this' & Hm & Hmerged).
  exists this'. split; [done |].
  destruct Hmerged as [Hl | j g g' device' _ Hfit _ _ _ | g' device' Hl Hfit _];
    cbn [instances].
  - right. split; [| done]. unfold lands in Hl.
    destruct (Z.eqb_spec (sub_stride attrs) 0); [by left | right].
    by destruct (first_fit _ _ _).
  - right. rewrite length_insert. split; [| done]. right. by rewrite Hfit.
  - left. rewrite length_app. cbn. split; [| split; [done | lia]].
    unfold lands in Hl. by destruct (Z.eqb_spec (sub_stride attrs) 0).
Qed.


(** In the second frame the first group fills up again and the next
    compatible submission lands in the second group, which the first
    frame left behind: the counts go from [1024; 0] to [1024; 1]. *)
Example second_frame_sample :
  (λ s, map count (instances s.1)) <$>
    run Sample.env (new_InstancedBuffer Sample.pass, [])
      (replicate 1025 (Sample.mergeOp 3 1 Byte.x01 1) ++ [OpClear]
       ++ replicate 1024 (Sample.mergeOp 3 1 Byte.x01 1))
  = Normal [1024; 0]
  ∧ lands Sample.env Sample.steady (Sample.subModel 3 JSUndefined 1)
      (Sample.block Byte.x01 1) = Some 1%nat
  ∧ (λ t, map count (instances t)) <$>
      merge Sample.env Sample.steady (Sample.subModel 3 JSUndefined 1)
        (Sample.block Byte.x01 1) 0 None
    = Normal [1024; 1].
Proof. vm_compute. repeat split; reflexivity. Qed.


(** * Further properties *)

(** ** The exact outcome of a merge *)

Lemma foldl_snoc_map {A B} (f : B → A) (l : list B) (acc : list A) :
  foldl (λ acc x, acc ++ [f x]) acc l = acc ++ map f l.
Proof.
  revert acc. induction l as [| x l IH]; intros acc; cbn.
  - by rewrite app_nil_r.
  - by rewrite IH, <- app_assoc.
Qed.

(** The group [create] adds, its input assembler and the device after. *)
Lemma create_exact env this subModel attrs h d :
  ∃ g',
    create env this (inputAssembler subModel) (sub_lightingMap env subModel)
      (sub_stride attrs) h d attrs
    = Normal {| instances := instances this ++ [g'];
                hPass := hPass this;
                hasPendingModels := true;
                dynamicOffsets := dynamicOffsets this;
                _device :=
                  {| nextObject := N.succ (N.succ (nextObject (_device this)));
                     calls := calls (_device this)
                       ++ [CreateBuffer (nextObject (_device this))
                             (instance_buffer_info env attrs);
                           CreateInputAssembler (N.succ (nextObject (_device this)))
                             (instance_assembler_info (nextObject (_device this))
                                subModel attrs)] |} |}
    ∧ created (_device this) (inputAssembler subModel) (sub_lightingMap env subModel)
        (buffer attrs) h d g'
    ∧ vb g' = {| buffer_id := nextObject (_device this);
                 buffer_info := instance_buffer_info env attrs;
                 buffer_size := sub_stride attrs * INITIAL_CAPACITY |}
    ∧ ia g' = {| assembler_id := N.succ (nextObject (_device this));
                 attributes :=
                   info_attributes
                     (instance_assembler_info (nextObject (_device this)) subModel attrs);
                 vertexBuffers :=
                   vertexBuffers (inputAssembler subModel)
                   ++ [nextObject (_device this)];
                 indexBuffer := indexBuffer (inputAssembler subModel);
                 instanceCount := 0 |}.
Proof.
  destruct (create_spec env this (inputAssembler subModel)
              (sub_lightingMap env subModel) h d attrs) as (g' & device' & Hc & Hnew).
  exists g'. rewrite Hc.
  unfold create, sub_stride, INITIAL_CAPACITY in Hc. cbn [createBuffer] in Hc.
  destruct (new_Uint8Array _) as [data0 |]; [| done].
  cbn [mbind Completion_bind] in Hc.
  destruct (Uint8Array_set _ _ _) as [data' |]; [| done].
  cbn [mbind Completion_bind createInputAssembler mret Completion_ret] in Hc.
  rewrite foldl_snoc_map in Hc.
  injection Hc as Hg' Hdev. apply app_inv_head in Hg'. injection Hg' as Hg'.
  subst g' device'. cbn [vb ia]. rewrite <- (app_assoc (calls (_device this))).
  done.
Qed.

Lemma put_keeps g attrs h d g' :
  put g attrs h d = Normal g' → vb g' = vb g.
Proof.
  unfold put. destruct (Uint8Array_set _ _ _); [| done]. by intros [= <-].
Qed.

Lemma append_exact device g attrs h d :
  item_inv g → count g < MAX_CAPACITY → stride g = sub_stride attrs →
  ∃ g', append device g attrs h d = Normal (g', (grown device g).2)
        ∧ appended g (buffer attrs) h d g'
        ∧ vb g' = (grown device g).1.
Proof.
  intros Hinv Hlt Hs.
  destruct (append_spec device g attrs h d Hinv Hlt Hs) as (g' & Happ & Hg').
  exists g'. unfold grown. split; [| split; [done |]].
  - rewrite Happ. by destruct (capacity g <=? count g).
  - revert Happ. unfold append.
    destruct (Z.leb_spec (capacity g) (count g)).
    + rewrite grow_spec; [| done | done | done |].
      2:{ rewrite Hs. unfold sub_stride. lia. }
      cbn [mbind Completion_bind].
      destruct (put _ _ _ _) as [g2 |] eqn:Hput; [| done].
      intros [= ->]. by apply put_keeps in Hput.
    + cbn [mbind mret Completion_bind Completion_ret].
      destruct (put _ _ _ _) as [g2 |] eqn:Hput; [| done].
      intros [= ->]. by apply put_keeps in Hput.
Qed.

Lemma merge_outcome_total env this subModel attrs passIdx implant :
  inv this →
  ∃ this', merge env this subModel attrs passIdx implant = Normal this'
           ∧ merge_outcome env this subModel attrs passIdx this'.
Proof.
  intros Hinv.
  destruct (lands env this subModel attrs) as [i |] eqn:Hl.
  2:{ destruct (merge_total env this subModel attrs passIdx implant Hinv)
        as (this' & Hm & Hmerged).
      destruct Hmerged; try congruence.
      exists this. split; [done |]. by constructor. }
  assert (H0 : sub_stride attrs ≠ 0).
  { intros H0. unfold lands in Hl. by rewrite H0 in Hl. }
  assert (Hnz : (Z.of_nat (length (buffer attrs)) =? 0) = false)
    by by apply Z.eqb_neq.
  destruct (instances this !! i) as [g |] eqn:Hi.
  - destruct (lands_existing env this subModel attrs i g Hl Hi) as (Hfit & Hkey & Hc).
    assert (Hg : item_inv g) by (eapply Forall_lookup_1; eauto).
    assert (Hs : stride g = sub_stride attrs).
    { unfold group_key, sub_key in Hkey. congruence. }
    destruct (append_exact (_device this) g attrs (sub_hShader env subModel passIdx)
                (sub_hDescriptorSet env subModel) Hg Hc Hs) as (g' & Happ & Hg' & Hvb).
    eexists. split; [| by eapply (outcome_appended _ _ _ _ _ i g g')].
    unfold merge. rewrite Hnz, merge_loop_find.
    unfold sub_indexBuffer, sub_lightingMap, sub_hShader, sub_hDescriptorSet in *.
    rewrite Hfit. unfold num_neq. fold (sub_stride attrs).
    rewrite <- Hs, Z.eqb_refl. cbn [negb]. rewrite Happ. done.
  - assert (Hfit : first_fit (sub_indexBuffer subModel) (sub_lightingMap env subModel)
                     (instances this) = None).
    { unfold lands in Hl. rewrite (proj2 (Z.eqb_neq _ _) H0) in Hl.
      destruct (first_fit _ _ _) as [[j g] |] eqn:Hfit; [| done].
      apply list_find_Some in Hfit as (Hj & _ & _).
      destruct (stride g =? sub_stride attrs); [| done].
      injection Hl as ->. congruence. }
    assert (i = length (instances this)) as ->.
    { unfold lands in Hl. rewrite (proj2 (Z.eqb_neq _ _) H0), Hfit in Hl. congruence. }
    destruct (create_exact env this subModel attrs (sub_hShader env subModel passIdx)
                (sub_hDescriptorSet env subModel)) as (g' & Hc & Hnew & Hvb & Hia).
    eexists. split; [| by eapply (outcome_created _ _ _ _ _ g')].
    unfold merge. rewrite Hnz, merge_loop_find.
    unfold sub_indexBuffer, sub_lightingMap, sub_hShader, sub_hDescriptorSet in *.
    rewrite Hfit. cbn [mbind Completion_bind]. exact Hc.
Qed.

(** Properties kept by every call of a set of calls hold along every
    sequence of such calls. *)
Lemma run_invariant env (allowed : Op → Prop) (P : InstancedBuffer → Prop) :
  (∀ s op s', allowed op → inv s.1 → P s.1 → exec env s op = Normal s' → P s'.1) →
  ∀ ops s, Forall allowed ops → inv s.1 → P s.1 →
           ∃ s', run env s ops = Normal s' ∧ inv s'.1 ∧ P s'.1.
Proof.
  intros Hstep ops. induction ops as [| op ops IH]; intros s Hops Hinv HP.
  - by exists s.
  - apply Forall_cons in Hops as [Hop Hops].
    destruct (exec_total env s op Hinv) as (s1 & Hs1 & Hinv1).
    destruct (IH s1 Hops Hinv1) as (s' & Hrun & Hinv' & HP').
    { exact (Hstep s op s1 Hop Hinv HP Hs1). }
    exists s'. cbn [run]. by rewrite Hs1.
Qed.

(** ** The calls on the device *)

(** X1: on an aggregator whose groups satisfy the invariant, [merge]
    returns, and the calls it has made on the device are [merge_calls]:
    nothing when the submission is dropped or appended to a group with
    room, one [resize] of the vertex buffer of the group to
    [stride * 2 * capacity] bytes when the group is full, and one
    [createBuffer] of [stride * 32] bytes followed by one
    [createInputAssembler] when a group is created. *)
Theorem merge_device_calls env this subModel attrs passIdx implant :
  inv this →
  ∃ this',
    merge env this subModel attrs passIdx implant = Normal this'
    ∧ calls (_device this') = calls (_device this) ++ merge_calls env this subModel attrs.
Proof.
  intros Hinv.
  destruct (merge_outcome_total env this subModel attrs passIdx implant Hinv)
    as (this' & Hm & Hout).
  exists this'. split; [done |]. unfold merge_calls.
  destruct Hout as [-> | j g g' -> Hj _ _ _ _ | g' -> _ _ _]; cbn [_device].
  - by rewrite app_nil_r.
  - rewrite Hj. unfold grown. destruct (capacity g <=? count g); [done |].
    by rewrite app_nil_r.
  - by rewrite (lookup_ge_None_2 (instances this)) by lia.
Qed.

Lemma merge_device_calls_witness :
  inv Sample.frame
  ∧ ∃ this',
      merge Sample.env Sample.frame (Sample.subModel 5 JSUndefined 6)
        (Sample.block Byte.x06 3) 0 None = Normal this'
      ∧ calls (_device this')
        = calls (_device Sample.frame)
          ++ merge_calls Sample.env Sample.frame (Sample.subModel 5 JSUndefined 6)
               (Sample.block Byte.x06 3).
Proof.
  assert (H : inv Sample.frame) by (apply inv_check_sound; vm_compute; reflexivity).
  split; [exact H |].
  exact (merge_device_calls Sample.env Sample.frame (Sample.subModel 5 JSUndefined 6)
           (Sample.block Byte.x06 3) 0 None H).
Defined.

Lemma filter_absent (id : N) (l : list N) :
  id ∉ l → filter (λ x, x ≠ id) l = l.
Proof.
  induction l as [| x l IH]; intros Hid; [done |].
  apply not_elem_of_cons in Hid as [Hne Hid].
  rewrite filter_cons_True by done. by rewrite IH.
Qed.

Lemma destroy_next l device :
  nextObject (foldl destroy_instance device l) = nextObject device.
Proof.
  revert device. induction l as [| g l IH]; intros device; [done |].
  cbn [foldl]. by rewrite IH.
Qed.

(** Destroying the groups in order ends the life of all their objects. *)
Lemma track_destroy l :
  ∀ alive,
    alive = Some (map (λ g, buffer_id (vb g)) l, map (λ g, assembler_id (ia g)) l) →
    NoDup (map (λ g, buffer_id (vb g)) l) →
    NoDup (map (λ g, assembler_id (ia g)) l) →
    foldl track alive
      (flat_map (λ g, [DestroyBuffer (buffer_id (vb g));
                       DestroyInputAssembler (assembler_id (ia g))]) l)
    = Some ([], []).
Proof.
  induction l as [| g l IH]; intros alive -> Hb Ha; [done |].
  cbn [map] in Hb, Ha. apply NoDup_cons in Hb as [Hb1 Hb], Ha as [Ha1 Ha].
  cbn [flat_map app foldl map track].
  rewrite decide_True by apply list_elem_of_here.
  rewrite filter_cons_False by (intros H; by apply H).
  rewrite filter_absent by done. cbn [track].
  rewrite decide_True by apply list_elem_of_here.
  rewrite filter_cons_False by (intros H; by apply H).
  rewrite filter_absent by done.
  by apply IH.
Qed.

Lemma owns_new pass : owns (pass_device pass) (new_InstancedBuffer pass).
Proof.
  split; cbn; try constructor.
  exists []. by rewrite app_nil_r.
Qed.

Lemma owns_exec env device0 s op s' :
  inv s.1 → owns device0 s.1 → exec env s op = Normal s' → owns device0 s'.1.
Proof.
  intros Hinv [(t & Ht & Halive) Hbd Had Hbk Hak] Hex.
  destruct op as [subModel attrs passIdx implant | | |]; cbn [exec] in Hex.
  - destruct (merge_outcome_total env s.1 subModel attrs passIdx implant Hinv)
      as (this' & Hm & Hout).
    rewrite Hm in Hex. injection Hex as <-. cbn [fst].
    destruct Hout as [_ | j g g' _ Hj _ _ Happ Hvb | g' _ Hnew Hvb Hia].
    + by split; [exists t | ..].
    + assert (Hb : group_buffers {| instances := <[j := g']> (instances s.1);
                                    hPass := hPass s.1; hasPendingModels := true;
                                    dynamicOffsets := dynamicOffsets s.1;
                                    _device := (grown (_device s.1) g).2 |}
                   = group_buffers s.1).
      { unfold group_buffers. cbn [instances]. rewrite list_fmap_insert.
        apply list_insert_id. rewrite list_lookup_fmap, Hj. cbn.
        f_equal. symmetry. apply Happ. }
      assert (Ha : group_assemblers {| instances := <[j := g']> (instances s.1);
                                       hPass := hPass s.1; hasPendingModels := true;
                                       dynamicOffsets := dynamicOffsets s.1;
                                       _device := (grown (_device s.1) g).2 |}
                   = group_assemblers s.1).
      { unfold group_assemblers. cbn [instances]. rewrite list_fmap_insert.
        apply list_insert_id. rewrite list_lookup_fmap, Hj. cbn.
        f_equal. destruct Happ as [_ _ _ Hia _ _ _ _ _ _ _]. by rewrite Hia. }
      assert (Hn : nextObject (grown (_device s.1) g).2 = nextObject (_device s.1)).
      { unfold grown. by destruct (capacity g <=? count g). }
      split; rewrite ?Hb, ?Ha; cbn [_device]; rewrite ?Hn; try done.
      unfold grown. destruct (capacity g <=? count g); [| by exists t].
      exists (t ++ [ResizeBuffer (buffer_id (vb g)) (stride g * (2 * capacity g))]).
      cbn. rewrite Ht, <- app_assoc. split; [done |].
      unfold alive_after in *. rewrite foldl_app, Halive. cbn.
      rewrite decide_True; [done |].
      unfold group_buffers. apply list_elem_of_fmap. exists g.
      split; [done |]. by eapply list_elem_of_lookup_2.
    + assert (Hb : group_buffers {| instances := instances s.1 ++ [g'];
                                    hPass := hPass s.1; hasPendingModels := true;
                                    dynamicOffsets := dynamicOffsets s.1;
                                    _device := _device s.1 |}
                   = group_buffers s.1 ++ [nextObject (_device s.1)]).
      { unfold group_buffers. cbn [instances]. rewrite map_app. cbn. by rewrite Hvb. }
      assert (Ha : group_assemblers {| instances := instances s.1 ++ [g'];
                                       hPass := hPass s.1; hasPendingModels := true;
                                       dynamicOffsets := dynamicOffsets s.1;
                                       _device := _device s.1 |}
                   = group_assemblers s.1 ++ [N.succ (nextObject (_device s.1))]).
      { unfold group_assemblers. cbn [instances]. rewrite map_app. cbn. by rewrite Hia. }
      unfold group_buffers, group_assemblers in *. cbn [instances _device] in *.
      split; unfold group_buffers, group_assemblers;
        cbn [instances _device nextObject calls]; rewrite ?Hb, ?Ha.
      * eexists. rewrite Ht, <- app_assoc. split; [reflexivity |].
        unfold alive_after in *. rewrite foldl_app, Halive. done.
      * apply NoDup_app. split; [done |]. split; [| apply NoDup_singleton].
        intros x Hx Hx'. apply list_elem_of_singleton in Hx' as ->.
        rewrite Forall_forall in Hbk. specialize (Hbk _ Hx). lia.
      * apply NoDup_app. split; [done |]. split; [| apply NoDup_singleton].
        intros x Hx Hx'. apply list_elem_of_singleton in Hx' as ->.
        rewrite Forall_forall in Hak. specialize (Hak _ Hx). lia.
      * apply Forall_app. split.
        -- eapply List.Forall_impl; [| exact Hbk]. cbn. lia.
        -- apply Forall_singleton. lia.
      * apply Forall_app. split.
        -- eapply List.Forall_impl; [| exact Hak]. cbn. lia.
        -- apply Forall_singleton. lia.
  - injection Hex as <-. rewrite uploadBuffers_unfold. cbn [fst].
    assert (Hb : ∀ l : list IInstancedItem,
      map (λ g, buffer_id (vb g)) (map (λ g, if count g =? 0 then g else bound g) l)
      = map (λ g, buffer_id (vb g)) l).
    { intros l. rewrite map_map. apply map_ext. intros g. by destruct (count g =? 0). }
    assert (Ha : ∀ l : list IInstancedItem,
      map (λ g, assembler_id (ia g)) (map (λ g, if count g =? 0 then g else bound g) l)
      = map (λ g, assembler_id (ia g)) l).
    { intros l. rewrite map_map. apply map_ext. intros g. by destruct (count g =? 0). }
    unfold group_buffers, group_assemblers in *.
    split; unfold group_buffers, group_assemblers; cbn [instances _device];
      rewrite ?Hb, ?Ha; try done. by exists t.
  - injection Hex as <-. cbn [fst].
    assert (Hb : ∀ l : list IInstancedItem,
      map (λ g, buffer_id (vb g)) (map clear_instance l)
      = map (λ g, buffer_id (vb g)) l) by (intros l; by rewrite map_map).
    assert (Ha : ∀ l : list IInstancedItem,
      map (λ g, assembler_id (ia g)) (map clear_instance l)
      = map (λ g, assembler_id (ia g)) l) by (intros l; by rewrite map_map).
    unfold group_buffers, group_assemblers in *.
    split; unfold group_buffers, group_assemblers; cbn [clear instances _device];
      rewrite ?Hb, ?Ha; try done. by exists t.
  - injection Hex as <-. cbn [fst].
    unfold group_buffers, group_assemblers in *.
    split; unfold group_buffers, group_assemblers;
      cbn [destroy instances _device map]; try constructor.
    eexists. rewrite destroy_fold, Ht, <- app_assoc. split; [reflexivity |].
    unfold alive_after in *. rewrite foldl_app. by apply track_destroy.
Qed.

(** X2: in the calls an aggregator makes on its device, from its
    construction through any sequence of [merge], [uploadBuffers], [clear]
    and [destroy], every [resize] and every [destroy] is on an object the
    aggregator created and has not destroyed yet, and the objects alive
    at the end are exactly the vertex buffers and input assemblers of its
    groups; after a [destroy] none is alive. *)
Theorem device_protocol env pass cmdBuff ops :
  ∃ s' t,
    run env (new_InstancedBuffer pass, cmdBuff) ops = Normal s'
    ∧ calls (_device s'.1) = calls (pass_device pass) ++ t
    ∧ alive_after t = Some (group_buffers s'.1, group_assemblers s'.1)
    ∧ ∃ s'' t',
        run env (new_InstancedBuffer pass, cmdBuff) (ops ++ [OpDestroy]) = Normal s''
        ∧ calls (_device s''.1) = calls (pass_device pass) ++ t'
        ∧ alive_after t' = Some ([], []).
Proof.
  assert (Hrun : ∀ ops,
    ∃ s', run env (new_InstancedBuffer pass, cmdBuff) ops = Normal s'
          ∧ inv s'.1 ∧ owns (pass_device pass) s'.1).
  { intros ops'.
    apply (run_invariant env (λ _, True) (owns (pass_device pass))).
    - intros s op s' _. apply owns_exec.
    - by apply Forall_true.
    - constructor.
    - apply owns_new. }
  destruct (Hrun ops) as (s' & Hs' & _ & [(t & Ht & Halive) _ _ _ _]).
  destruct (Hrun (ops ++ [OpDestroy])) as (s'' & Hs'' & _ & [(t' & Ht' & Halive') _ _ _ _]).
  exists s', t. repeat split; try done.
  exists s'', t'. repeat split; try done.
  rewrite run_app, Hs' in Hs''. cbn in Hs''. injection Hs'' as <-.
  exact Halive'.
Qed.

(** ** The dirty flag *)

Lemma upload_nothing this cmdBuff :
  Forall (λ g, count g = 0) (instances this) →
  uploadBuffers this cmdBuff = (this, cmdBuff).
Proof.
  intros Hzero. rewrite uploadBuffers_unfold.
  assert (Hmap : map (λ g, if count g =? 0 then g else bound g) (instances this)
                 = instances this
                 ∧ flat_map (λ g, if count g =? 0 then []
                                  else [(buffer_id (vb g), data g)]) (instances this)
                   = []).
  { induction Hzero as [| g l Hg Hl [IH1 IH2]]; [done |].
    cbn. by rewrite Hg, IH1, IH2. }
  destruct Hmap as [-> ->]. rewrite app_nil_r. by destruct this.
Qed.

Lemma quiet_exec env s op s' :
  inv s.1 → quiet s.1 → exec env s op = Normal s' → quiet s'.1.
Proof.
  intros Hinv Hq Hex.
  destruct op as [subModel attrs passIdx implant | | |]; cbn [exec] in Hex.
  - destruct (merge _ _ _ _ _ _) as [this' |] eqn:Hm; [| done].
    injection Hex as <-. cbn [fst].
    destruct (merge_pending _ _ _ _ _ _ _ Hm) as [Hflag | ->]; [| done].
    intros Hf. congruence.
  - injection Hex as <-. intros Hf. rewrite uploadBuffers_unfold in *.
    cbn in *. apply Forall_fmap. eapply List.Forall_impl; [| exact (Hq Hf)].
    intros g Hg. cbn. by rewrite Hg.
  - injection Hex as <-. intros _. cbn. apply Forall_fmap, Forall_true. done.
  - injection Hex as <-. intros _. cbn. constructor.
Qed.

Lemma busy_exec env s op s' :
  not_destroy op → inv s.1 → busy s.1 → exec env s op = Normal s' → busy s'.1.
Proof.
  intros Hop Hinv Hb Hex.
  destruct op as [subModel attrs passIdx implant | | |]; cbn [exec] in Hex; [| | | done].
  - destruct (merge_total env s.1 subModel attrs passIdx implant Hinv)
      as (this' & Hm & Hmerged).
    rewrite Hm in Hex. injection Hex as <-. cbn [fst].
    destruct Hmerged as [_ | j g g' device' _ Hfit _ Happ _ | g' device' _ _ Hnew];
      [done | |]; intros _; cbn [instances].
    + apply list_find_Some in Hfit as (Hj & _ & _).
      apply Exists_exists. exists g'. split.
      * eapply list_elem_of_lookup_2.
        apply list_lookup_insert_eq. by eapply lookup_lt_Some.
      * destruct Happ as [Hc _ _ _ _ _ _ _ _ _ _].
        destruct (Forall_lookup_1 _ _ _ _ Hinv Hj). lia.
    + apply Exists_app. right. apply Exists_cons. left.
      destruct Hnew as [Hc _ _ _ _ _ _ _ _ _]. lia.
  - injection Hex as <-. rewrite uploadBuffers_unfold. cbn. intros Hf.
    specialize (Hb Hf). apply Exists_fmap.
    eapply Exists_impl; [exact Hb |]. intros g Hg. cbn.
    by destruct (count g =? 0).
  - injection Hex as <-. done.
Qed.

(** X3: after any sequence of calls on a new aggregator, a clear
    [hasPendingModels] means that every group is empty, so that
    [uploadBuffers] would record nothing and change nothing; and as long as
    the aggregator was not destroyed, a set flag means that some group
    holds an instance. *)
Theorem pending_flag_sound env pass cmdBuff ops :
  ∃ s',
    run env (new_InstancedBuffer pass, cmdBuff) ops = Normal s'
    ∧ (hasPendingModels s'.1 = false →
       Forall (λ g, count g = 0) (instances s'.1)
       ∧ ∀ cmdBuff', uploadBuffers s'.1 cmdBuff' = (s'.1, cmdBuff'))
    ∧ (Forall not_destroy ops → hasPendingModels s'.1 = true →
       Exists (λ g, 0 < count g) (instances s'.1)).
Proof.
  destruct (run_invariant env (λ _, True) quiet) with
    (ops := ops) (s := (new_InstancedBuffer pass, cmdBuff)) as (s' & Hrun & _ & Hq).
  - intros s op s' _. apply quiet_exec.
  - by apply Forall_true.
  - constructor.
  - intros _. constructor.
  - exists s'. split; [done |]. split.
    + intros Hf. specialize (Hq Hf). split; [done |].
      intros cmdBuff'. by apply upload_nothing.
    + intros Hops.
      destruct (run_invariant env not_destroy busy) with
        (ops := ops) (s := (new_InstancedBuffer pass, cmdBuff))
        as (s2 & Hrun2 & _ & Hb); try done.
      * intros s op s1. apply busy_exec.
      * constructor.
      * assert (s2 = s') as -> by congruence. exact Hb.
Qed.

(** ** Capacity growth *)

Lemma pow2_multiple_gap a b :
  pow2_multiple a → pow2_multiple b → a < b → 2 * a ≤ b.
Proof.
  intros [k ->] [m ->] Hlt. unfold INITIAL_CAPACITY in *.
  assert (Hkm : Z.of_nat k < Z.of_nat m).
  { apply (Z.pow_lt_mono_r_iff 2); lia. }
  assert (2 ^ (Z.of_nat k + 1) ≤ 2 ^ Z.of_nat m) by (apply Z.pow_le_mono_r; lia).
  rewrite Z.pow_add_r in * by lia. lia.
Qed.

Lemma tight_exec env s op s' :
  within_frame op → inv s.1 → Forall tight (instances s.1) →
  exec env s op = Normal s' → Forall tight (instances s'.1).
Proof.
  intros [Hnc Hnd] Hinv Ht Hex.
  destruct op as [subModel attrs passIdx implant | | |]; cbn [exec] in Hex; try done.
  - destruct (merge_total env s.1 subModel attrs passIdx implant Hinv)
      as (this' & Hm & Hmerged).
    rewrite Hm in Hex. injection Hex as <-. cbn [fst].
    destruct Hmerged as [_ | j g g' device' _ Hfit _ Happ _ | g' device' _ _ Hnew];
      [done | |]; cbn [instances].
    + apply list_find_Some in Hfit as (Hj & _ & _).
      apply Forall_insert; [done |].
      pose proof (Forall_lookup_1 _ _ _ _ Ht Hj) as Hg.
      destruct (Forall_lookup_1 _ _ _ _ Hinv Hj) as [H0 Hcc _ _ _].
      destruct Happ as [Hc _ Hcap _ _ _ _ _ _ _ _]. unfold tight in *.
      rewrite Hc, Hcap. destruct (Z.leb_spec (capacity g) (count g)); lia.
    + apply Forall_app. split; [done |]. apply Forall_singleton.
      left. apply Hnew.
  - injection Hex as <-. rewrite uploadBuffers_unfold. cbn.
    apply Forall_fmap. eapply List.Forall_impl; [| exact Ht].
    intros g Hg. cbn. by destruct (count g =? 0).
Qed.

(** X4: after merges and uploads on a new aggregator, the capacity of
    every group is the least capacity of the form [32 * 2^k] that holds
    its instances: 32 up to 32 instances, 64 up to 64, and so on. *)
Theorem capacity_least env pass cmdBuff ops :
  Forall within_frame ops →
  ∃ s',
    run env (new_InstancedBuffer pass, cmdBuff) ops = Normal s'
    ∧ Forall (λ g, count g ≤ capacity g ∧ pow2_multiple (capacity g)
                   ∧ ∀ c, pow2_multiple c → count g ≤ c → capacity g ≤ c)
        (instances s'.1).
Proof.
  intros Hops.
  destruct (run_invariant env within_frame (λ this, Forall tight (instances this)))
    with (ops := ops) (s := (new_InstancedBuffer pass, cmdBuff))
    as (s' & Hrun & Hinv & Ht); try done.
  - intros s op s1. apply tight_exec.
  - constructor.
  - exists s'. split; [done |].
    apply Forall_lookup. intros i g Hg.
    destruct (Forall_lookup_1 _ _ _ _ Hinv Hg) as [_ Hcc Hpow _ _].
    pose proof (Forall_lookup_1 _ _ _ _ Ht Hg) as [Hfirst | Hhalf].
    + split; [done |]. split; [done |]. intros c Hc _.
      rewrite Hfirst. by apply pow2_multiple_pos.
    + split; [done |]. split; [done |]. intros c Hc Hle.
      destruct (Z.le_gt_cases (capacity g) c) as [| Hlt]; [done |].
      pose proof (pow2_multiple_gap c (capacity g) Hc Hpow ltac:(lia)). lia.
Qed.

Lemma capacity_least_witness :
  Forall within_frame (Sample.numbered 33)
  ∧ ∃ s',
      run Sample.env (new_InstancedBuffer Sample.pass, []) (Sample.numbered 33)
      = Normal s'
      ∧ Forall (λ g, count g ≤ capacity g ∧ pow2_multiple (capacity g)
                     ∧ ∀ c, pow2_multiple c → count g ≤ c → capacity g ≤ c)
          (instances s'.1).
Proof.
  assert (H : Forall within_frame (Sample.numbered 33)).
  { unfold Sample.numbered. apply Forall_fmap, Forall_true. by intros i. }
  split; [exact H |].
  exact (capacity_least Sample.env Sample.pass [] (Sample.numbered 33) H).
Defined.

(** ** Buffers and bindings of the groups *)

Lemma wired_exec env s op s' :
  inv s.1 → Forall wired (instances s.1) →
  exec env s op = Normal s' → Forall wired (instances s'.1).
Proof.
  intros Hinv Hw Hex.
  destruct op as [subModel attrs passIdx implant | | |]; cbn [exec] in Hex.
  - destruct (merge_outcome_total env s.1 subModel attrs passIdx implant Hinv)
      as (this' & Hm & Hout).
    rewrite Hm in Hex. injection Hex as <-. cbn [fst].
    destruct Hout as [_ | j g g' _ Hj _ _ Happ Hvb | g' _ Hnew Hvb Hia];
      [done | |]; cbn [instances].
    + apply Forall_insert; [done |].
      destruct (Forall_lookup_1 _ _ _ _ Hw Hj) as [Hsize Hlast].
      destruct (Forall_lookup_1 _ _ _ _ Hinv Hj) as [_ _ _ _ Hlen].
      destruct Happ as [_ Hst Hcap Hia _ Hid _ _ _ _ [_ _ _ _ Hlen']].
      split; [| by rewrite Hia, Hid].
      rewrite Hvb, Hlen', Hst, Hcap. unfold grown.
      destruct (capacity g <=? count g); cbn; [done | lia].
    + apply Forall_app. split; [done |]. apply Forall_singleton.
      destruct Hnew as [_ Hcap Hst _ _ _ _ _ _ [_ _ _ _ Hlen]].
      split.
      * rewrite Hvb, Hlen, Hst, Hcap. done.
      * rewrite Hia, Hvb. cbn. apply last_snoc.
  - injection Hex as <-. rewrite uploadBuffers_unfold. cbn.
    apply Forall_fmap. eapply List.Forall_impl; [| exact Hw].
    intros g Hg. cbn. by destruct (count g =? 0).
  - injection Hex as <-. cbn. apply Forall_fmap.
    eapply List.Forall_impl; [| exact Hw]. by intros g Hg.
  - injection Hex as <-. cbn. constructor.
Qed.

(** X5: after any sequence of calls on a new aggregator, the vertex
    buffer of every group has exactly the size of the [data] array of the
    group, [stride * capacity] bytes, and is the last vertex buffer of the
    input assembler of the group; so every update [uploadBuffers] records
    fills its buffer exactly. *)
Theorem buffers_mirror_data env pass cmdBuff ops :
  ∃ s',
    run env (new_InstancedBuffer pass, cmdBuff) ops = Normal s'
    ∧ Forall (λ g, buffer_size (vb g) = Z.of_nat (length (data g))
                   ∧ buffer_size (vb g) = stride g * capacity g
                   ∧ last (vertexBuffers (ia g)) = Some (buffer_id (vb g)))
        (instances s'.1).
Proof.
  destruct (run_invariant env (λ _, True) (λ this, Forall wired (instances this)))
    with (ops := ops) (s := (new_InstancedBuffer pass, cmdBuff))
    as (s' & Hrun & Hinv & Hw).
  - intros s op s1 _. apply wired_exec.
  - by apply Forall_true.
  - constructor.
  - constructor.
  - exists s'. split; [done |].
    apply Forall_lookup. intros i g Hg.
    destruct (Forall_lookup_1 _ _ _ _ Hinv Hg) as [_ _ _ _ Hlen].
    destruct (Forall_lookup_1 _ _ _ _ Hw Hg) as [Hsize Hlast].
    split; [done |]. split; [congruence | done].
Qed.

(** X6: a merge that creates a group binds it as follows: the vertex
    buffers of its input assembler are those of the submission followed by
    the new instance buffer, its index buffer is that of the submission,
    its attributes are those of the submission followed by one attribute
    per attribute of the block, with the same name, format and
    normalization, marked as instanced and reading the slot of the
    instance buffer; no instance is drawn yet. *)
Theorem created_group_binding env this subModel attrs passIdx implant :
  inv this →
  lands env this subModel attrs = Some (length (instances this)) →
  ∃ this' g',
    merge env this subModel attrs passIdx implant = Normal this'
    ∧ instances this' = instances this ++ [g']
    ∧ vertexBuffers (ia g')
      = vertexBuffers (inputAssembler subModel) ++ [buffer_id (vb g')]
    ∧ indexBuffer (ia g') = indexBuffer (inputAssembler subModel)
    ∧ instanceCount (ia g') = 0
    ∧ attributes (ia g')
      = attributes (inputAssembler subModel)
        ++ map (instanced (length (vertexBuffers (inputAssembler subModel))))
             (block_attributes attrs)
    ∧ Forall (λ a, isInstanced a = true
                   ∧ vertexBuffers (ia g') !! Z.to_nat (stream a)
                     = Some (buffer_id (vb g')))
        (drop (length (attributes (inputAssembler subModel))) (attributes (ia g'))).
Proof.
  intros Hinv Hl.
  destruct (merge_outcome_total env this subModel attrs passIdx implant Hinv)
    as (this' & Hm & Hout).
  exists this'.
  destruct Hout as [Hl' | j g g' Hl' Hj _ _ _ _ | g' _ _ Hvb Hia]; [congruence | |].
  { rewrite Hl in Hl'. injection Hl' as <-. apply lookup_lt_Some in Hj. lia. }
  exists g'. split; [done |]. split; [done |].
  rewrite Hia, Hvb. cbn. repeat split; try done.
  rewrite drop_app_length. apply Forall_fmap, Forall_true.
  intros a. cbn. split; [done |].
  rewrite Nat2Z.id, lookup_app_r, Nat.sub_diag by lia. done.
Qed.

Lemma created_group_binding_witness :
  inv Sample.frame
  ∧ lands Sample.env Sample.frame (Sample.subModel 5 JSUndefined 6)
      (Sample.block Byte.x06 3) = Some (length (instances Sample.frame))
  ∧ ∃ this' g',
      merge Sample.env Sample.frame (Sample.subModel 5 JSUndefined 6)
        (Sample.block Byte.x06 3) 0 None = Normal this'
      ∧ instances this' = instances Sample.frame ++ [g']
      ∧ vertexBuffers (ia g')
        = vertexBuffers (inputAssembler (Sample.subModel 5 JSUndefined 6))
          ++ [buffer_id (vb g')]
      ∧ indexBuffer (ia g')
        = indexBuffer (inputAssembler (Sample.subModel 5 JSUndefined 6))
      ∧ instanceCount (ia g') = 0
      ∧ attributes (ia g')
        = attributes (inputAssembler (Sample.subModel 5 JSUndefined 6))
          ++ map (instanced (length (vertexBuffers
                                       (inputAssembler
                                          (Sample.subModel 5 JSUndefined 6)))))
               (block_attributes (Sample.block Byte.x06 3))
      ∧ Forall (λ a, isInstanced a = true
                     ∧ vertexBuffers (ia g') !! Z.to_nat (stream a)
                       = Some (buffer_id (vb g')))
          (drop (length (attributes (inputAssembler
                                       (Sample.subModel 5 JSUndefined 6))))
             (attributes (ia g'))).
Proof.
  assert (H : inv Sample.frame) by (apply inv_check_sound; vm_compute; reflexivity).
  assert (L : lands Sample.env Sample.frame (Sample.subModel 5 JSUndefined 6)
                (Sample.block Byte.x06 3) = Some (length (instances Sample.frame)))
    by (vm_compute; reflexivity).
  split; [exact H |]. split; [exact L |].
  exact (created_group_binding Sample.env Sample.frame (Sample.subModel 5 JSUndefined 6)
           (Sample.block Byte.x06 3) 0 None H L).
Defined.

(** ** The registry *)

Lemma registry_wf_empty : registry_wf {| _buffers := ∅; heap := ∅ |}.
Proof. split; unfold entry; cbn; intros; by rewrite lookup_empty in *. Qed.

Lemma get_entry registry passRef pass extraKey :
  entry (get registry passRef pass extraKey).2 passRef extraKey
  = Some (get registry passRef pass extraKey).1.
Proof.
  unfold get, entry.
  destruct (_buffers registry !! passRef) as [record |] eqn:Hp; cbn.
  - rewrite Hp. cbn. destruct (record !! extraKey) as [this |] eqn:Hk; cbn.
    + by rewrite Hp.
    + by rewrite lookup_insert_eq; cbn; rewrite lookup_insert_eq.
  - rewrite lookup_insert_eq. cbn. rewrite lookup_empty. cbn.
    by rewrite lookup_insert_eq; cbn; rewrite lookup_insert_eq.
Qed.

Lemma get_found registry passRef pass extraKey this :
  entry registry passRef extraKey = Some this →
  get registry passRef pass extraKey = (this, registry).
Proof.
  unfold get, entry.
  destruct (_buffers registry !! passRef) as [record |] eqn:Hp; cbn; [| done].
  intros Hk. rewrite Hp. cbn. rewrite Hk. by destruct registry.
Qed.

Lemma get_other registry passRef pass extraKey p k :
  (p, k) ≠ (passRef, extraKey) →
  entry (get registry passRef pass extraKey).2 p k = entry registry p k.
Proof.
  intros Hne. unfold get, entry.
  destruct (_buffers registry !! passRef) as [record |] eqn:Hp; cbn.
  - rewrite Hp. cbn. destruct (record !! extraKey) as [this |] eqn:Hk; cbn; [done |].
    destruct (decide (p = passRef)) as [-> | Hpn].
    + rewrite lookup_insert_eq, Hp. cbn.
      rewrite lookup_insert_ne; [done | congruence].
    + by rewrite lookup_insert_ne.
  - rewrite lookup_insert_eq. cbn. rewrite lookup_empty. cbn.
    destruct (decide (p = passRef)) as [-> | Hpn].
    + rewrite lookup_insert_eq, Hp. cbn.
      rewrite lookup_insert_ne; [| congruence]. by rewrite lookup_empty.
    + by rewrite !lookup_insert_ne.
Qed.

(** X7: [InstancedBuffer.get] memoizes: a second call with the same pass
    and extra key returns the aggregator of the first call and leaves the
    registry as it is, whatever the calls on the aggregators (the
    [destroy] of this one too) have done to them in between. *)
Theorem get_memoizes registry passRef pass extraKey pass' heap' :
  get {| _buffers := _buffers (get registry passRef pass extraKey).2;
         heap := heap' |} passRef pass' extraKey
  = ((get registry passRef pass extraKey).1,
     {| _buffers := _buffers (get registry passRef pass extraKey).2;
        heap := heap' |}).
Proof.
  apply get_found. unfold entry. cbn [_buffers].
  apply get_entry.
Qed.

Lemma get_creates registry passRef pass extraKey :
  match entry registry passRef extraKey with
  | Some this => get registry passRef pass extraKey = (this, registry)
  | None =>
      heap registry !! (get registry passRef pass extraKey).1 = None
      ∧ heap (get registry passRef pass extraKey).2
        = <[(get registry passRef pass extraKey).1 := new_InstancedBuffer pass]>
            (heap registry)
  end.
Proof.
  destruct (entry registry passRef extraKey) as [this |] eqn:He.
  - by apply get_found.
  - unfold get, entry in *.
    destruct (_buffers registry !! passRef) as [record |] eqn:Hp; cbn in *.
    + rewrite Hp. cbn. rewrite He. cbn. split; [| done].
      apply not_elem_of_dom, is_fresh.
    + rewrite lookup_insert_eq. cbn. rewrite lookup_empty. cbn. split; [| done].
      apply not_elem_of_dom, is_fresh.
Qed.

Lemma get_wf registry passRef pass extraKey :
  registry_wf registry → registry_wf (get registry passRef pass extraKey).2.
Proof.
  intros [Hex Honce].
  pose proof (get_creates registry passRef pass extraKey) as Hcase.
  destruct (entry registry passRef extraKey) as [this |] eqn:He.
  { rewrite Hcase. by split. }
  destruct Hcase as [Hfresh Hheap].
  pose proof (get_entry registry passRef pass extraKey) as Hnew.
  split.
  - intros p k r Hr. rewrite Hheap.
    destruct (decide ((p, k) = (passRef, extraKey))) as [[= -> ->] | Hne].
    + rewrite Hnew in Hr. injection Hr as <-. by rewrite lookup_insert_eq.
    + rewrite get_other in Hr by done.
      destruct (Hex p k r Hr) as [a Ha].
      rewrite lookup_insert_ne; [by exists a |]. congruence.
  - intros p k p' k' r Hr Hr'.
    destruct (decide ((p, k) = (passRef, extraKey))) as [[= -> ->] | Hne],
             (decide ((p', k') = (passRef, extraKey))) as [[= -> ->] | Hne'];
      try done.
    + rewrite Hnew in Hr. injection Hr as <-.
      rewrite get_other in Hr' by done.
      destruct (Hex _ _ _ Hr') as [a Ha]. congruence.
    + rewrite Hnew in Hr'. injection Hr' as <-.
      rewrite get_other in Hr by done.
      destruct (Hex _ _ _ Hr) as [a Ha]. congruence.
    + rewrite get_other in Hr, Hr' by done. by eapply Honce.
Qed.

(** X8: on a registry where registered aggregators exist and none is
    registered twice, [InstancedBuffer.get] returns the registered
    aggregator and changes nothing when there is one, and otherwise
    registers a new aggregator object, with no group, a clear flag, and
    the handle and the device of the pass; the other entries and the other
    aggregators are as before, and the registry is as well formed as it
    was. *)
Theorem get_finds_or_creates registry passRef pass extraKey :
  registry_wf registry →
  registry_wf (get registry passRef pass extraKey).2
  ∧ entry (get registry passRef pass extraKey).2 passRef extraKey
    = Some (get registry passRef pass extraKey).1
  ∧ match entry registry passRef extraKey with
    | Some this => get registry passRef pass extraKey = (this, registry)
    | None =>
        heap registry !! (get registry passRef pass extraKey).1 = None
        ∧ heap (get registry passRef pass extraKey).2
          = <[(get registry passRef pass extraKey).1 := new_InstancedBuffer pass]>
              (heap registry)
    end
  ∧ ∀ p k, (p, k) ≠ (passRef, extraKey) →
           entry (get registry passRef pass extraKey).2 p k = entry registry p k.
Proof.
  intros Hwf. split_and!.
  - by apply get_wf.
  - apply get_entry.
  - apply get_creates.
  - intros p k Hne. by apply get_other.
Qed.

Lemma get_finds_or_creates_witness :
  registry_wf {| _buffers := ∅; heap := ∅ |}
  ∧ registry_wf (get {| _buffers := ∅; heap := ∅ |} 1 Sample.pass 0).2
  ∧ entry (get {| _buffers := ∅; heap := ∅ |} 1 Sample.pass 0).2 1 0
    = Some (get {| _buffers := ∅; heap := ∅ |} 1 Sample.pass 0).1
  ∧ match entry {| _buffers := ∅; heap := ∅ |} 1 0 with
    | Some this =>
        get {| _buffers := ∅; heap := ∅ |} 1 Sample.pass 0
        = (this, {| _buffers := ∅; heap := ∅ |})
    | None =>
        heap {| _buffers := ∅; heap := ∅ |}
          !! (get {| _buffers := ∅; heap := ∅ |} 1 Sample.pass 0).1 = None
        ∧ heap (get {| _buffers := ∅; heap := ∅ |} 1 Sample.pass 0).2
          = <[(get {| _buffers := ∅; heap := ∅ |} 1 Sample.pass 0).1
              := new_InstancedBuffer Sample.pass]>
              (heap {| _buffers := ∅; heap := ∅ |})
    end
  ∧ ∀ p k, (p, k) ≠ (1%N, 0) →
           entry (get {| _buffers := ∅; heap := ∅ |} 1 Sample.pass 0).2 p k
           = entry {| _buffers := ∅; heap := ∅ |} p k.
Proof.
  split; [exact registry_wf_empty |].
  exact (get_finds_or_creates {| _buffers := ∅; heap := ∅ |} 1 Sample.pass 0
           registry_wf_empty).
Defined.

(** X9: on such a registry, calls of [InstancedBuffer.get] with two
    different passes, or with one pass and two different extra keys,
    return two different aggregators. *)
Theorem get_separates_keys registry passRef pass extraKey passRef' pass' extraKey' :
  registry_wf registry →
  (passRef, extraKey) ≠ (passRef', extraKey') →
  (get registry passRef pass extraKey).1
  ≠ (get (get registry passRef pass extraKey).2 passRef' pass' extraKey').1.
Proof.
  intros Hwf Hne Heq.
  pose proof (get_wf registry passRef pass extraKey Hwf) as Hwf1.
  pose proof (get_entry registry passRef pass extraKey) as He1.
  destruct (get_wf _ passRef' pass' extraKey' Hwf1) as [_ Honce].
  pose proof (get_entry (get registry passRef pass extraKey).2
                passRef' pass' extraKey') as He2.
  rewrite <- Heq in He2.
  rewrite <- (get_other _ passRef' pass' extraKey' passRef extraKey) in He1 by done.
  destruct (Honce _ _ _ _ _ He1 He2). congruence.
Qed.

Lemma get_separates_keys_witness :
  registry_wf {| _buffers := ∅; heap := ∅ |}
  ∧ (1%N, 0) ≠ (1%N, 1)
  ∧ (get {| _buffers := ∅; heap := ∅ |} 1 Sample.pass 0).1
    ≠ (get (get {| _buffers := ∅; heap := ∅ |} 1 Sample.pass 0).2 1 Sample.pass 1).1.
Proof.
  assert (H : (1%N, 0) ≠ (1%N, 1)) by discriminate.
  split; [exact registry_wf_empty |]. split; [exact H |].
  exact (get_separates_keys {| _buffers := ∅; heap := ∅ |} 1 Sample.pass 0
           1 Sample.pass 1 registry_wf_empty H).
Defined.

(** ** Replaying a frame *)

Lemma extends_refl g : extends g g.
Proof. split; try done; lia. Qed.

Lemma extends_trans g1 g2 g3 :
  0 ≤ count g1 → extends g1 g2 → extends g2 g3 → extends g1 g3.
Proof.
  intros H0 [Hk1 Hi1 Hc1 Hp1 Hd1] [Hk2 Hi2 Hc2 Hp2 Hd2].
  split; [congruence | intros n; by rewrite Hi2, Hi1 | lia | lia |].
  assert (Hs : stride g2 = stride g1).
  { unfold group_key in Hk1. congruence. }
  rewrite Hs in Hd2. rewrite <- Hd1.
  assert (Hle : (Z.to_nat (count g1) * Z.to_nat (stride g1)
                 ≤ Z.to_nat (count g2) * Z.to_nat (stride g1))%nat)
    by (apply Nat.mul_le_mono_r; lia).
  replace (take (Z.to_nat (count g1) * Z.to_nat (stride g1)) (data g3))
    with (take (Z.to_nat (count g1) * Z.to_nat (stride g1))
            (take (Z.to_nat (count g2) * Z.to_nat (stride g1)) (data g3)))
    by (rewrite take_take; f_equal; lia).
  rewrite Hd2, take_take. f_equal. lia.
Qed.

Lemma exec_extends env s op s' i g :
  within_frame op → inv s.1 → exec env s op = Normal s' →
  instances s.1 !! i = Some g →
  ∃ g', instances s'.1 !! i = Some g' ∧ extends g g'.
Proof.
  intros [Hnc Hnd] Hinv Hex Hi.
  destruct op as [subModel attrs passIdx implant | | |]; cbn [exec] in Hex; try done.
  - destruct (merge_total env s.1 subModel attrs passIdx implant Hinv)
      as (this' & Hm & Hmerged).
    rewrite Hm in Hex. injection Hex as <-. cbn [fst].
    destruct Hmerged as [_ | j g0 g' device' _ Hfit _ Happ _ | g' device' _ _ _];
      cbn [instances].
    + exists g. split; [done | apply extends_refl].
    + apply list_find_Some in Hfit as (Hj & _ & _).
      destruct (decide (i = j)) as [-> | Hne].
      * assert (g0 = g) as -> by congruence.
        exists g'. rewrite list_lookup_insert_eq by (by eapply lookup_lt_Some).
        split; [done |].
        destruct Happ as [Hc Hst Hcap Hia Hlm _ _ _ Hold _ _].
        split; try done; try lia.
        -- unfold group_key. by rewrite Hia, Hlm, Hst.
        -- intros n. by rewrite Hia.
        -- rewrite Hcap. destruct (Z.leb_spec (capacity g) (count g)); [| lia].
           destruct (Forall_lookup_1 _ _ _ _ Hinv Hj) as [_ _ Hpow _ _].
           apply pow2_multiple_pos in Hpow. unfold INITIAL_CAPACITY in Hpow. lia.
      * exists g. rewrite list_lookup_insert_ne by done.
        split; [done | apply extends_refl].
    + exists g. rewrite lookup_app_l by (by eapply lookup_lt_Some).
      split; [done | apply extends_refl].
  - injection Hex as <-. rewrite uploadBuffers_unfold. cbn.
    rewrite list_lookup_fmap, Hi. cbn. eexists. split; [reflexivity |].
    destruct (count g =? 0); [apply extends_refl |].
    split; try done; lia.
Qed.

Lemma run_extends env ops s s' i g :
  Forall within_frame ops → inv s.1 → run env s ops = Normal s' →
  instances s.1 !! i = Some g →
  ∃ g', instances s'.1 !! i = Some g' ∧ extends g g'.
Proof.
  revert s g. induction ops as [| op ops IH]; intros s g Hops Hinv Hrun Hi.
  - injection Hrun as <-. exists g. split; [done | apply extends_refl].
  - apply Forall_cons in Hops as [Hop Hops]. cbn [run] in Hrun.
    destruct (exec_total env s op Hinv) as (s1 & Hs1 & Hinv1).
    rewrite Hs1 in Hrun. cbn in Hrun.
    destruct (exec_extends env s op s1 i g Hop Hinv Hs1 Hi) as (g1 & Hg1 & He1).
    destruct (IH s1 g1 Hops Hinv1 Hrun Hg1) as (g' & Hg' & He').
    exists g'. split; [done |].
    eapply extends_trans; [| done | done].
    by destruct (Forall_lookup_1 _ _ _ _ Hinv Hi).
Qed.

(** Writing the bytes a slot already holds changes nothing. *)
Lemma set_same (d payload : Uint8Array) (s : Z) (i : nat) :
  slot d s i = payload → length payload = Z.to_nat s →
  take (i * Z.to_nat s) d ++ payload ++ drop (i * Z.to_nat s + length payload) d = d.
Proof.
  unfold slot. intros <- Hlen. rewrite Hlen.
  rewrite <- drop_drop, take_drop. apply take_drop.
Qed.

(** A merge into a group with room whose next slot already holds the
    payload only counts the instance and takes over the handles. *)
Lemma merge_in_place env this subModel attrs passIdx implant j g :
  first_fit (sub_indexBuffer subModel) (sub_lightingMap env subModel)
    (instances this) = Some (j, g) →
  sub_stride attrs ≠ 0 → stride g = sub_stride attrs →
  0 ≤ count g → count g < capacity g →
  Z.of_nat (length (data g)) = stride g * capacity g →
  slot (data g) (stride g) (Z.to_nat (count g)) = buffer attrs →
  merge env this subModel attrs passIdx implant
  = Normal {| instances :=
                <[j := {| count := count g + 1; capacity := capacity g;
                          vb := vb g; data := data g; ia := ia g;
                          stride := stride g;
                          hShader := sub_hShader env subModel passIdx;
                          hDescriptorSet := sub_hDescriptorSet env subModel;
                          lightingMap := lightingMap g |}]> (instances this);
              hPass := hPass this;
              hasPendingModels := true;
              dynamicOffsets := dynamicOffsets this;
              _device := _device this |}.
Proof.
  intros Hfit H0 Hs Hc0 Hroom Hlen Hslot.
  unfold merge. fold (sub_stride attrs).
  rewrite (proj2 (Z.eqb_neq _ _) H0), merge_loop_find.
  unfold sub_indexBuffer, sub_lightingMap in Hfit. rewrite Hfit.
  unfold num_neq at 1. rewrite <- Hs, Z.eqb_refl. cbn [negb].
  unfold append. destruct (Z.leb_spec (capacity g) (count g)); [lia |].
  cbn [mbind mret Completion_bind Completion_ret]. unfold put.
  unfold sub_stride in Hs.
  rewrite Uint8Array_set_ok by nia.
  cbn [mbind mret Completion_bind Completion_ret].
  replace (Z.to_nat (stride g * count g))
    with (Z.to_nat (count g) * Z.to_nat (stride g))%nat by nia.
  rewrite set_same by (done || lia).
  do 3 f_equal. f_equal.
  - unfold num_neq, sub_hShader.
    by destruct (Z.eqb_spec (hShader g)
                   (SubModelPool_get env (handle subModel) (SHADER_0 env + passIdx))).
  - unfold num_neq, sub_hDescriptorSet.
    by destruct (Z.eqb_spec (hDescriptorSet g)
                   (SubModelPool_get env (handle subModel) (DESCRIPTOR_SET env))).
Qed.

Lemma replays_lookup s s' F i g :
  replays s s' F → future s F → instances s !! i = Some g →
  ∃ g' gF,
    instances s' !! i = Some g' ∧ instances F !! i = Some gF ∧ extends g gF
    ∧ group_key g' = group_key g ∧ count g' = count g
    ∧ capacity g' = capacity gF ∧ data g' = data gF.
Proof.
  intros Hrp Hfut Hi. destruct (Hfut i g Hi) as (gF & HF & Hext).
  destruct (lookup_lt_is_Some_2 (instances s') i) as [g' Hg'].
  { rewrite (rp_length _ _ _ Hrp). by eapply lookup_lt_Some. }
  exists g', gF.
  destruct (rp_groups _ _ _ Hrp i g' gF Hg' HF) as (Hcap & _ & Hdata & Hst & Hlm & Hm).
  rewrite Hi in Hm. destruct Hm as (Hc & _ & _ & Hia).
  split_and!; try done.
  pose proof (ext_key _ _ Hext) as Hk. unfold group_key in *.
  injection Hk as Hk1 Hk2 Hk3.
  rewrite Hst, Hlm, Hk2, Hk3. f_equal. f_equal.
  destruct Hia as [-> | ->]; done.
Qed.

Lemma replays_first_fit s s' F ib tex j g :
  replays s s' F → future s F →
  first_fit ib tex (instances s) = Some (j, g) →
  ∃ g', first_fit ib tex (instances s') = Some (j, g')
        ∧ group_key g' = group_key g ∧ count g' = count g.
Proof.
  intros Hrp Hfut Hfit.
  apply list_find_Some in Hfit as (Hj & (Hib & Hc & Htex) & Hbefore).
  destruct (replays_lookup s s' F j g Hrp Hfut Hj)
    as (g' & gF & Hg' & _ & _ & Hk & Hcount & _).
  exists g'. split; [| done].
  unfold first_fit. apply list_find_Some. split; [done |].
  unfold group_key in Hk. injection Hk as Hk1 Hk2 Hk3.
  split; [unfold fits; by rewrite Hk1, Hk2, Hcount |].
  intros i gi' Hgi' Hi (Hib' & Hc' & Htex').
  destruct (lookup_lt_is_Some_2 (instances s) i) as [gi Hgi].
  { apply lookup_lt_Some in Hj. lia. }
  destruct (replays_lookup s s' F i gi Hrp Hfut Hgi)
    as (gi'' & _ & Hgi'' & _ & _ & Hki & Hci & _).
  assert (gi'' = gi') as -> by congruence.
  unfold group_key in Hki. injection Hki as Hki1 Hki2 Hki3.
  apply (Hbefore i gi Hgi Hi). unfold fits. by rewrite <- Hki1, <- Hki2, <- Hci.
Qed.

Lemma replay_exec env s s' F op cmd s1 cmd1 cmd' :
  within_frame op → inv s → inv s1 → inv F →
  exec env (s, cmd) op = Normal (s1, cmd1) →
  future s F → future s1 F → replays s s' F →
  ∃ s1' cmd1', exec env (s', cmd') op = Normal (s1', cmd1') ∧ replays s1 s1' F.
Proof.
  intros [Hnc Hnd] Hinv Hinv1 HinvF Hex Hfut Hfut1 Hrp.
  destruct op as [subModel attrs passIdx implant | | |]; cbn [exec fst snd] in *;
    try done.
  - destruct (merge_total env s subModel attrs passIdx implant Hinv)
      as (this1 & Hm & Hmerged).
    rewrite Hm in Hex. injection Hex as <- <-.
    destruct Hmerged as [Hl | j g g1 device1 Hl Hfit Hs Happ _ | g1 device1 Hl Hfit Hnew].
    + (* dropped in the first pass, dropped again *)
      exists s', cmd'. split; [| done].
      assert (Hm' : merge env s' subModel attrs passIdx implant = Normal s').
      { unfold lands in Hl.
        destruct (Z.eqb_spec (sub_stride attrs) 0) as [H0 | H0];
          [by apply merge_skip |].
        destruct (first_fit _ _ (instances s)) as [[j g] |] eqn:Hfit; [| done].
        destruct (Z.eqb_spec (stride g) (sub_stride attrs)) as [| Hne]; [done |].
        destruct (replays_first_fit _ _ _ _ _ _ _ Hrp Hfut Hfit) as (g' & Hfit' & Hk & _).
        eapply merge_abort; [done | exact Hfit' |].
        unfold group_key in Hk. congruence. }
      by rewrite Hm'.
    + (* appended in the first pass: the slot holds the payload already *)
      assert (H0 : sub_stride attrs ≠ 0).
      { intros H0. unfold lands in Hl. by rewrite H0 in Hl. }
      destruct (replays_first_fit _ _ _ _ _ _ _ Hrp Hfut Hfit) as (g' & Hfit' & Hk & Hc).
      pose proof Hfit as Hfit0.
      apply list_find_Some in Hfit0 as (Hj & _ & _).
      pose proof Hfit' as Hfit0'.
      apply list_find_Some in Hfit0' as (Hj' & _ & _).
      apply lookup_lt_Some in Hj as Hlt.
      destruct (Hfut1 j g1) as (gF & HF & Hext1).
      { cbn. by rewrite list_lookup_insert_eq. }
      destruct (rp_groups _ _ _ Hrp j g' gF Hj' HF)
        as (Hcap & Hvb & Hdata & Hst & Hlm & Hmatch).
      rewrite Hj in Hmatch. destruct Hmatch as (_ & _ & _ & Hia).
      destruct (Forall_lookup_1 _ _ _ _ Hinv Hj) as [Hg0 _ _ _ _].
      assert (Hg1 : item_inv g1).
      { eapply (Forall_lookup_1 _ _ j); [exact Hinv1 |].
        cbn. by rewrite list_lookup_insert_eq. }
      destruct Hg1 as [_ Hg1c _ _ _].
      destruct (Forall_lookup_1 _ _ _ _ HinvF HF) as [_ _ _ _ HlenF].
      destruct Happ as [Hc1 Hst1 _ Hia1 _ _ Hh1 Hd1 _ Hnew1 _].
      destruct Hext1 as [Hk1 _ _ Hcap1 Hdata1].
      assert (Hsg : stride g' = stride g).
      { unfold group_key in Hk. congruence. }
      rewrite (merge_in_place env s' subModel attrs passIdx implant j g');
        [| done | done | congruence | lia | lia | congruence |].
      2:{ rewrite Hdata, Hsg, Hc, <- Hnew1.
          apply (slot_prefix _ _ _ (Z.to_nat (count g1))); [| lia].
          by rewrite <- Hst1. }
      cbn [mbind mret Completion_bind Completion_ret].
      eexists _, cmd'. split; [reflexivity |].
      destruct Hrp as [Rl Rp Ro Rd Rf Rg].
      split; cbn [instances hPass dynamicOffsets _device hasPendingModels];
        try done.
      { by rewrite length_insert. }
      intros i gi' gFi Hgi' HFi.
      destruct (decide (i = j)) as [-> | Hne].
      * rewrite list_lookup_insert_eq in Hgi' by (by eapply lookup_lt_Some).
        injection Hgi' as <-. assert (gFi = gF) as -> by congruence.
        rewrite list_lookup_insert_eq by done. cbn.
        destruct Hia as [Hia | Hia]; split_and!; try done; try congruence;
          try (by left); [left | right]; congruence.
      * rewrite list_lookup_insert_ne in Hgi' by done.
        rewrite list_lookup_insert_ne by done. by apply Rg.
    + (* created in the first pass: the group is there, empty *)
      assert (H0 : sub_stride attrs ≠ 0).
      { intros H0. unfold lands in Hl. by rewrite H0 in Hl. }
      destruct (Hfut1 (length (instances s)) g1) as (gF & HF & Hext1).
      { cbn. by rewrite lookup_app_r, Nat.sub_diag by lia. }
      destruct (lookup_lt_is_Some_2 (instances s') (length (instances s))) as [g' Hg'].
      { rewrite (rp_length _ _ _ Hrp). by eapply lookup_lt_Some. }
      destruct (rp_groups _ _ _ Hrp _ g' gF Hg' HF)
        as (Hcap & Hvb & Hdata & Hst & Hlm & Hmatch).
      rewrite (lookup_ge_None_2 (instances s)) in Hmatch by lia.
      destruct Hmatch as (Hc & Hh & Hd & Hia).
      destruct (Forall_lookup_1 _ _ _ _ HinvF HF) as [_ _ HpowF _ HlenF].
      apply pow2_multiple_pos in HpowF. unfold INITIAL_CAPACITY in HpowF.
      pose proof (holds_created _ _ _ _ _ _ _ Hnew) as [_ Hslot].
      specialize (Hslot 0%nat (buffer attrs) eq_refl).
      destruct Hnew as [Hc1 _ Hst1 Hib1 Hlm1 _ Hh1 Hd1 _ _].
      destruct Hext1 as [Hk1 _ _ _ Hdata1].
      unfold group_key in Hk1. injection Hk1 as Hk1 Hk2 Hk3.
      assert (Hfit' : first_fit (sub_indexBuffer subModel) (sub_lightingMap env subModel)
                        (instances s') = Some (length (instances s), g')).
      { unfold first_fit. apply list_find_Some. split; [done |]. split.
        - unfold fits, sub_indexBuffer, MAX_CAPACITY.
          rewrite Hia, Hk1, Hib1, Hlm, Hk2, Hlm1, Hc. done.
        - intros i gi' Hgi' Hi (Hib' & Hc' & Htex').
          destruct (lookup_lt_is_Some_2 (instances s) i) as [gi Hgi]; [done |].
          destruct (replays_lookup s s' F i gi Hrp Hfut Hgi)
            as (gi'' & _ & Hgi'' & _ & _ & Hki & Hci & _).
          assert (gi'' = gi') as -> by congruence.
          unfold group_key in Hki. injection Hki as Hki1 Hki2 Hki3.
          unfold first_fit in Hfit. rewrite list_find_None in Hfit.
          apply (Forall_lookup_1 _ _ _ _ Hfit Hgi).
          unfold fits. by rewrite <- Hki1, <- Hki2, <- Hci. }
      rewrite (merge_in_place env s' subModel attrs passIdx implant _ g' Hfit');
        [| done | unfold sub_stride; congruence | lia | lia | congruence |].
      2:{ rewrite Hdata, Hst, Hk3, Hc. change (Z.to_nat 0) with 0%nat.
          rewrite <- Hslot.
          apply (slot_prefix _ _ _ (Z.to_nat (count g1))); [done |].
          rewrite Hc1. cbn. lia. }
      cbn [mbind mret Completion_bind Completion_ret].
      eexists _, cmd'. split; [reflexivity |].
      destruct Hrp as [Rl Rp Ro Rd Rf Rg].
      split; cbn [instances hPass dynamicOffsets _device hasPendingModels];
        try done.
      { by rewrite length_insert. }
      intros i gi' gFi Hgi' HFi.
      destruct (decide (i = length (instances s))) as [-> | Hne].
      * rewrite list_lookup_insert_eq in Hgi' by (by eapply lookup_lt_Some).
        injection Hgi' as <-. assert (gFi = gF) as -> by congruence.
        rewrite lookup_app_r, Nat.sub_diag by lia. cbn.
        split_and!; try done; try congruence; try (by left);
          [lia | by right].
      * rewrite list_lookup_insert_ne in Hgi' by done.
        assert (Hsame : (instances s ++ [g1]) !! i = instances s !! i).
        { destruct (decide (i < length (instances s))%nat).
          - by rewrite lookup_app_l.
          - rewrite !lookup_ge_None_2; [done | lia |].
            rewrite length_app. cbn. lia. }
        rewrite Hsame. by apply Rg.
  - (* uploadBuffers *)
    injection Hex as Hex.
    assert (s1 = (uploadBuffers s cmd).1) as -> by (by rewrite Hex).
    clear Hex.
    eexists _, _. split; [by rewrite (surjective_pairing (uploadBuffers s' cmd')) |].
    rewrite !uploadBuffers_unfold. cbn [fst].
    destruct Hrp as [Rl Rp Ro Rd Rf Rg].
    split; cbn [instances hPass dynamicOffsets _device hasPendingModels];
      try done.
    { by rewrite length_map. }
    intros i gi' gFi Hgi' HFi.
    rewrite list_lookup_fmap in Hgi'.
    destruct (instances s' !! i) as [g' |] eqn:Hg'; [| done].
    cbn in Hgi'. injection Hgi' as <-.
    destruct (Rg i g' gFi Hg' HFi) as (Hcap & Hvb & Hdata & Hst & Hlm & Hmatch).
    rewrite list_lookup_fmap.
    destruct (instances s !! i) as [g |] eqn:Hg; cbn.
    + destruct Hmatch as (Hc & Hh & Hd & Hia). rewrite Hc.
      destruct (count g =? 0); [done |]. cbn.
      split_and!; try done. left. rewrite Hc.
      destruct Hia as [-> | ->]; [done |].
      destruct (Hfut i g Hg) as (gF & HF & Hext).
      assert (gF = gFi) as -> by congruence. apply Hext.
    + destruct Hmatch as (Hc & Hh & Hd & Hia). rewrite Hc. done.
Qed.

Lemma replays_start s F : replays (clear s) (clear F) F.
Proof.
  split; cbn [clear instances hPass dynamicOffsets _device hasPendingModels];
    try done.
  { by rewrite length_map. }
  intros i g' gF Hg' HF. rewrite list_lookup_fmap in Hg'. rewrite HF in Hg'.
  injection Hg' as <-. cbn. split_and!; try done.
  rewrite list_lookup_fmap.
  destruct (instances s !! i) as [g |]; cbn; split_and!; try done; by right.
Qed.

Lemma replays_end F s' : replays F s' F → s' = F.
Proof.
  intros [Rl Rp Ro Rd Rf Rg].
  assert (Hi : instances s' = instances F).
  { apply (list_eq_same_length _ _ (length (instances F))); try done.
    intros i g' gF _ Hg' HgF.
    destruct (Rg i g' gF Hg' HgF) as (? & ? & ? & ? & ? & Hm).
    rewrite HgF in Hm.
    destruct Hm as (? & [|] & [|] & [|]); destruct g', gF; cbn in *; congruence. }
  destruct s', F; cbn in *; congruence.
Qed.

Lemma replay_run env ops :
  ∀ s s' F cmd cmdF cmd',
    Forall within_frame ops → inv s →
    run env (s, cmd) ops = Normal (F, cmdF) → replays s s' F →
    ∃ cmd'', run env (s', cmd') ops = Normal (F, cmd'').
Proof.
  induction ops as [| op ops IH]; intros s s' F cmd cmdF cmd' Hops Hinv Hrun Hrp.
  - injection Hrun as -> ->. exists cmd'. cbn [run].
    by rewrite (replays_end _ _ Hrp).
  - pose proof Hops as Hall. apply Forall_cons in Hops as [Hop Hops].
    destruct (exec_total env (s, cmd) op Hinv) as ([s1 cmd1] & Hs1 & Hinv1).
    pose proof Hrun as Hrun1. cbn [run] in Hrun1. rewrite Hs1 in Hrun1.
    cbn [mbind Completion_bind] in Hrun1. cbn [fst] in Hinv1.
    assert (HinvF : inv F).
    { destruct (run_total env (s1, cmd1) ops Hinv1) as (sF & HsF & HiF).
      rewrite Hrun1 in HsF. by injection HsF as <-. }
    assert (Hfut : future s F).
    { intros i g Hi.
      exact (run_extends env (op :: ops) (s, cmd) (F, cmdF) i g Hall Hinv Hrun Hi). }
    assert (Hfut1 : future s1 F).
    { intros i g Hi.
      exact (run_extends env ops (s1, cmd1) (F, cmdF) i g Hops Hinv1 Hrun1 Hi). }
    destruct (replay_exec env s s' F op cmd s1 cmd1 cmd'
                Hop Hinv Hinv1 HinvF Hs1 Hfut Hfut1 Hrp)
      as (s1' & cmd1' & Hex' & Hrp1).
    destruct (IH s1 s1' F cmd1 cmdF cmd1' Hops Hinv1 Hrun1 Hrp1) as (cmd'' & Hrun').
    exists cmd''. cbn [run]. by rewrite Hex'.
Qed.

(** X10: a frame submitted again after [clear] brings the aggregator back
    to the very state the first pass left: from any aggregator, the calls
    [clear], then merges and uploads, made twice, end both times in the same
    groups with the same counts, capacities, bytes, buffers and handles, and
    the second pass makes no call on the device. *)
Theorem frame_replay env this cmdBuff frame :
  inv this → Forall within_frame frame →
  ∃ s1 s2,
    run env (this, cmdBuff) (OpClear :: frame) = Normal s1
    ∧ run env s1 (OpClear :: frame) = Normal s2
    ∧ s2.1 = s1.1
    ∧ calls (_device s2.1) = calls (_device s1.1).
Proof.
  intros Hinv Hframe.
  destruct (exec_total env (this, cmdBuff) OpClear Hinv) as ([s0 c0] & Hs0 & Hinv0).
  cbn [exec fst snd] in Hs0. injection Hs0 as <- <-. cbn [fst] in Hinv0.
  destruct (run_total env (clear this, cmdBuff) frame Hinv0) as ([F cF] & HF & _).
  destruct (replay_run env frame (clear this) (clear F) F cmdBuff cF cF
              Hframe Hinv0 HF (replays_start this F)) as (c2 & H2).
  exists (F, cF), (F, c2). split_and!; try done.
Qed.

Lemma frame_replay_witness :
  inv Sample.frame
  ∧ Forall within_frame
      [Sample.mergeOp 3 1 Byte.x01 4; OpUploadBuffers; Sample.mergeOp 5 2 Byte.x02 4]
  ∧ ∃ s1 s2,
      run Sample.env (Sample.frame, [])
        [OpClear; Sample.mergeOp 3 1 Byte.x01 4; OpUploadBuffers;
         Sample.mergeOp 5 2 Byte.x02 4] = Normal s1
      ∧ run Sample.env s1
          [OpClear; Sample.mergeOp 3 1 Byte.x01 4; OpUploadBuffers;
           Sample.mergeOp 5 2 Byte.x02 4] = Normal s2
      ∧ s2.1 = s1.1
      ∧ calls (_device s2.1) = calls (_device s1.1).
Proof.
  assert (H : inv Sample.frame) by (apply inv_check_sound; vm_compute; reflexivity).
  assert (Hf : Forall within_frame
                 [Sample.mergeOp 3 1 Byte.x01 4; OpUploadBuffers;
                  Sample.mergeOp 5 2 Byte.x02 4]).
  { repeat constructor; done. }
  split; [exact H |]. split; [exact Hf |].
  exact (frame_replay Sample.env Sample.frame []
           [Sample.mergeOp 3 1 Byte.x01 4; OpUploadBuffers;
            Sample.mergeOp 5 2 Byte.x02 4] H Hf).
Defined.

(** ** The number of calls on the device *)

Lemma allocations_pow2 g (k : nat) :
  capacity g = INITIAL_CAPACITY * 2 ^ Z.of_nat k → allocations g = 2 + Z.of_nat k.
Proof.
  intros Hc. unfold allocations. rewrite Hc, Z.mul_comm, Z.div_mul by done.
  rewrite Z.log2_pow2 by lia. done.
Qed.

Lemma allocations_bounds g :
  item_inv g → 2 ≤ allocations g ≤ 7.
Proof.
  intros [_ _ [k Hk] Hmax _]. rewrite (allocations_pow2 g k Hk).
  unfold INITIAL_CAPACITY, MAX_CAPACITY in *.
  assert (¬ (6 ≤ Z.of_nat k)); [| lia].
  intros H6. assert (2 ^ 6 ≤ 2 ^ Z.of_nat k) by (apply Z.pow_le_mono_r; lia).
  lia.
Qed.

Lemma allocations_double g g' :
  item_inv g → capacity g' = 2 * capacity g → allocations g' = allocations g + 1.
Proof.
  intros [_ _ [k Hk] _ _] Hc. rewrite (allocations_pow2 g k Hk).
  rewrite (allocations_pow2 g' (S k)); [lia |].
  rewrite Hc, Hk, Nat2Z.inj_succ, Z.pow_succ_r by lia. lia.
Qed.

Lemma paid_insert (l : list IInstancedItem) j g g' :
  l !! j = Some g →
  foldr (λ g n, allocations g + n) 0 (<[j := g']> l)
  = foldr (λ g n, allocations g + n) 0 l - allocations g + allocations g'.
Proof.
  revert j. induction l as [| x l IH]; intros [| j] Hj; try done.
  - injection Hj as ->. cbn. lia.
  - change (<[S j := g']> (x :: l)) with (x :: <[j := g']> l).
    cbn [foldr]. rewrite (IH j Hj). lia.
Qed.

Lemma paid_app (l1 l2 : list IInstancedItem) :
  foldr (λ g n, allocations g + n) 0 (l1 ++ l2)
  = foldr (λ g n, allocations g + n) 0 l1 + foldr (λ g n, allocations g + n) 0 l2.
Proof. induction l1 as [| x l1 IH]; cbn; [done | rewrite IH; lia]. Qed.

Lemma paid_map (f : IInstancedItem → IInstancedItem) (l : list IInstancedItem) :
  (∀ g, capacity (f g) = capacity g) →
  foldr (λ g n, allocations g + n) 0 (map f l)
  = foldr (λ g n, allocations g + n) 0 l.
Proof.
  intros Hf. induction l as [| x l IH]; cbn; [done |].
  rewrite IH. unfold allocations. by rewrite Hf.
Qed.

Lemma paid_bounds this :
  inv this → 2 * Z.of_nat (length (instances this)) ≤ paid this
             ∧ paid this ≤ 7 * Z.of_nat (length (instances this)).
Proof.
  unfold inv, paid. induction 1 as [| g l Hg Hl IH]; cbn [foldr length]; [lia |].
  pose proof (allocations_bounds g Hg). lia.
Qed.

Lemma paid_exec env (base : Z) s op s' :
  not_destroy op → inv s.1 →
  Z.of_nat (length (calls (_device s.1))) = base + paid s.1 →
  exec env s op = Normal s' →
  Z.of_nat (length (calls (_device s'.1))) = base + paid s'.1.
Proof.
  intros Hnd Hinv HP Hex.
  destruct op as [subModel attrs passIdx implant | | |]; cbn [exec] in Hex; try done.
  - destruct (merge_outcome_total env s.1 subModel attrs passIdx implant Hinv)
      as (this' & Hm & Hout).
    rewrite Hm in Hex. injection Hex as <-. cbn [fst].
    destruct Hout as [_ | j g g' _ Hj _ _ Happ _ | g' _ Hnew _ _]; [done | |];
      unfold paid in *; cbn [instances _device calls].
    + rewrite (paid_insert _ j g g' Hj).
      pose proof (Forall_lookup_1 _ _ _ _ Hinv Hj) as Hg.
      destruct Happ as [_ _ Hcap _ _ _ _ _ _ _ _]. unfold grown.
      destruct (capacity g <=? count g); cbn [snd GFXBuffer_resize calls].
      * rewrite (allocations_double g g' Hg Hcap), length_app. cbn [length]. lia.
      * assert (allocations g' = allocations g) as ->
          by (unfold allocations; by rewrite Hcap).
        lia.
    + rewrite paid_app, length_app. cbn [foldr length].
      rewrite (allocations_pow2 g' 0); [lia |].
      rewrite (new_capacity _ _ _ _ _ _ _ Hnew). done.
  - injection Hex as <-. rewrite uploadBuffers_unfold. cbn [fst].
    unfold paid in *. cbn [instances _device].
    rewrite paid_map; [done |]. intros g. by destruct (count g =? 0).
  - injection Hex as <-. unfold paid, clear in *.
    cbn [fst instances _device]. by rewrite paid_map.
Qed.

(** X11: allocation is amortised: as long as the aggregator is not
    destroyed, the calls it has made on the device are two for each group
    and one for each doubling of a group's capacity, whatever the number of
    frames and of merged instances: between two and seven calls a group. *)
Theorem device_calls_amortised env pass cmdBuff ops :
  Forall not_destroy ops →
  ∃ s',
    run env (new_InstancedBuffer pass, cmdBuff) ops = Normal s'
    ∧ Z.of_nat (length (calls (_device s'.1)))
      = Z.of_nat (length (calls (pass_device pass))) + paid s'.1
    ∧ 2 * Z.of_nat (length (instances s'.1)) ≤ paid s'.1
    ∧ paid s'.1 ≤ 7 * Z.of_nat (length (instances s'.1)).
Proof.
  intros Hops.
  destruct (run_invariant env not_destroy
              (λ this, Z.of_nat (length (calls (_device this)))
                       = Z.of_nat (length (calls (pass_device pass))) + paid this)
              (λ s op s' Hop Hinv HP Hex, paid_exec env _ s op s' Hop Hinv HP Hex)
              ops (new_InstancedBuffer pass, cmdBuff) Hops)
    as (s' & Hrun & Hinv' & HP').
  { constructor. }
  { cbn. unfold paid. cbn. lia. }
  exists s'. split; [done |]. split; [done |]. by apply paid_bounds.
Qed.

Lemma device_calls_amortised_witness :
  Forall not_destroy (Sample.numbered 33 ++ [OpClear] ++ Sample.numbered 70)
  ∧ ∃ s',
      run Sample.env (new_InstancedBuffer Sample.pass, [])
        (Sample.numbered 33 ++ [OpClear] ++ Sample.numbered 70) = Normal s'
      ∧ Z.of_nat (length (calls (_device s'.1)))
        = Z.of_nat (length (calls (pass_device Sample.pass))) + paid s'.1
      ∧ 2 * Z.of_nat (length (instances s'.1)) ≤ paid s'.1
      ∧ paid s'.1 ≤ 7 * Z.of_nat (length (instances s'.1)).
Proof.
  assert (H : Forall not_destroy
                (Sample.numbered 33 ++ [OpClear] ++ Sample.numbered 70)).
  { unfold Sample.numbered. rewrite !Forall_app. split_and!.
    - apply Forall_fmap, Forall_true. by intros i.
    - by apply Forall_singleton.
    - apply Forall_fmap, Forall_true. by intros i. }
  split; [exact H |].
  exact (device_calls_amortised Sample.env Sample.pass []
           (Sample.numbered 33 ++ [OpClear] ++ Sample.numbered 70) H).
Defined.

(** ** What a draw may read *)

Lemma drawable_exec env s op s' :
  inv s.1 → Forall drawable (instances s.1) →
  exec env s op = Normal s' → Forall drawable (instances s'.1).
Proof.
  intros Hinv Hd Hex.
  destruct op as [subModel attrs passIdx implant | | |]; cbn [exec] in Hex.
  - destruct (merge_outcome_total env s.1 subModel attrs passIdx implant Hinv)
      as (this' & Hm & Hout).
    rewrite Hm in Hex. injection Hex as <-. cbn [fst].
    destruct Hout as [_ | j g g' _ Hj _ _ Happ _ | g' _ Hnew _ Hia];
      [done | |]; cbn [instances].
    + apply Forall_insert; [done |].
      pose proof (Forall_lookup_1 _ _ _ _ Hd Hj) as Hg. unfold drawable in *.
      destruct (Forall_lookup_1 _ _ _ _ Hinv Hj) as [_ _ Hpow _ _].
      apply pow2_multiple_pos in Hpow.
      destruct Happ as [_ _ Hcap Hia _ _ _ _ _ _ _]. rewrite Hia, Hcap.
      destruct (capacity g <=? count g); lia.
    + apply Forall_app. split; [done |]. apply Forall_singleton.
      unfold drawable. rewrite Hia, (new_capacity _ _ _ _ _ _ _ Hnew). done.
  - injection Hex as <-. rewrite uploadBuffers_unfold. cbn [fst instances].
    apply Forall_fmap, Forall_lookup. intros i g Hg. cbn.
    destruct (count g =? 0); [exact (Forall_lookup_1 _ _ _ _ Hd Hg) |].
    destruct (Forall_lookup_1 _ _ _ _ Hinv Hg) as [H0 Hc _ _ _].
    unfold drawable. cbn. lia.
  - injection Hex as <-. cbn. apply Forall_fmap.
    eapply List.Forall_impl; [| exact Hd]. by intros g Hg.
  - injection Hex as <-. cbn. constructor.
Qed.

(** X12: no draw reads past a vertex buffer: after any sequence of calls
    on a new aggregator, the instance count of the input assembler of every
    group, which [uploadBuffers] sets and [clear] leaves as it was, is at
    most the capacity of the group, so the instances it draws lie within the
    [stride * capacity] bytes of the vertex buffer of the group. *)
Theorem draw_within_buffer env pass cmdBuff ops :
  ∃ s',
    run env (new_InstancedBuffer pass, cmdBuff) ops = Normal s'
    ∧ Forall (λ g, 0 ≤ instanceCount (ia g) ≤ capacity g
                   ∧ 0 ≤ instanceCount (ia g) * stride g ≤ buffer_size (vb g))
        (instances s'.1).
Proof.
  destruct (run_invariant env (λ _, True)
              (λ this, Forall wired (instances this)
                       ∧ Forall drawable (instances this)))
    with (ops := ops) (s := (new_InstancedBuffer pass, cmdBuff))
    as (s' & Hrun & Hinv & Hw & Hd).
  - intros s op s1 _ Hinv [Hw Hd] Hex. split.
    + by eapply wired_exec.
    + by eapply drawable_exec.
  - by apply Forall_true.
  - constructor.
  - split; constructor.
  - exists s'. split; [done |].
    apply Forall_lookup. intros i g Hg.
    destruct (Forall_lookup_1 _ _ _ _ Hinv Hg) as [_ _ Hpow _ Hlen].
    destruct (Forall_lookup_1 _ _ _ _ Hw Hg) as [Hsize _].
    pose proof (Forall_lookup_1 _ _ _ _ Hd Hg) as Hdraw. unfold drawable in Hdraw.
    apply pow2_multiple_pos in Hpow.
    split; [done |]. rewrite Hsize, Hlen.
    pose proof (Nat2Z.is_nonneg (length (data g))) as Hnn. rewrite Hlen in Hnn.
    unfold INITIAL_CAPACITY in Hpow.
    assert (0 ≤ stride g) by nia.
    split; [nia |]. rewrite (Z.mul_comm (stride g)).
    apply Z.mul_le_mono_nonneg_r; lia.
Qed.

(** ** Uploading twice *)

(** X13: [uploadBuffers] called again with nothing merged in between
    leaves the aggregator as the first call left it and records the same
    updates again. *)
Theorem uploadBuffers_again this cmdBuff cmdBuff' :
  (uploadBuffers (uploadBuffers this cmdBuff).1 cmdBuff').1
  = (uploadBuffers this cmdBuff).1
  ∧ ∃ updates,
      (uploadBuffers this cmdBuff).2 = cmdBuff ++ updates
      ∧ (uploadBuffers (uploadBuffers this cmdBuff).1 cmdBuff').2
        = cmdBuff' ++ updates.
Proof.
  rewrite !uploadBuffers_unfold. cbn [fst snd instances hPass hasPendingModels
                                        dynamicOffsets _device].
  split.
  - f_equal. rewrite map_map. apply map_ext. intros g.
    destruct (count g =? 0) eqn:Hc; [by rewrite Hc |]. cbn. by rewrite Hc.
  - eexists. split; [reflexivity |]. f_equal.
    induction (instances this) as [| g l IH]; [done |].
    cbn [map flat_map]. rewrite IH. f_equal.
    destruct (count g =? 0) eqn:Hc; [by rewrite Hc |]. cbn. by rewrite Hc.
Qed.

(** ** What no call writes *)

Lemma fixed_exec env s op s' :
  inv s.1 → exec env s op = Normal s' →
  hPass s'.1 = hPass s.1 ∧ dynamicOffsets s'.1 = dynamicOffsets s.1
  ∧ (nextObject (_device s.1) ≤ nextObject (_device s'.1))%N.
Proof.
  intros Hinv Hex.
  destruct op as [subModel attrs passIdx implant | | |]; cbn [exec] in Hex.
  - destruct (merge_outcome_total env s.1 subModel attrs passIdx implant Hinv)
      as (this' & Hm & Hout).
    rewrite Hm in Hex. injection Hex as <-. cbn [fst].
    destruct Hout as [_ | j g g' _ _ _ _ _ _ | g' _ _ _ _];
      cbn [hPass dynamicOffsets _device nextObject]; split_and!; try done; try lia.
    unfold grown. destruct (capacity g <=? count g); cbn; lia.
  - injection Hex as <-. rewrite uploadBuffers_unfold. cbn. split_and!; try done; lia.
  - injection Hex as <-. cbn. split_and!; try done; lia.
  - injection Hex as <-. cbn. split_and!; try done.
    rewrite destroy_next. lia.
Qed.

(** X14: no call writes the pass handle or the dynamic offsets: after any
    sequence of calls on a new aggregator, [hPass] is the handle of the
    pass it was constructed for and [dynamicOffsets] is empty. *)
Theorem pass_handle_fixed env pass cmdBuff ops :
  ∃ s',
    run env (new_InstancedBuffer pass, cmdBuff) ops = Normal s'
    ∧ hPass s'.1 = pass_handle pass
    ∧ dynamicOffsets s'.1 = [].
Proof.
  destruct (run_invariant env (λ _, True)
              (λ this, hPass this = pass_handle pass ∧ dynamicOffsets this = []))
    with (ops := ops) (s := (new_InstancedBuffer pass, cmdBuff))
    as (s' & Hrun & _ & Hp & Ho).
  - intros s op s1 _ Hinv [Hp Ho] Hex.
    destruct (fixed_exec env s op s1 Hinv Hex) as (-> & -> & _). done.
  - by apply Forall_true.
  - constructor.
  - done.
  - by exists s'.
Qed.
